(** * Stage-3 training of the recursive point-cloud autoencoder

    A shallow embedding of [code/train_stage3.py]: the per-node loss
    aggregator ([forward_one_node], [forward_one_obj]), the batch forward pass
    ([forward]) and the training orchestrator ([train]).

    Conventions of the embedding.
    - A Python exception is a value of [Exn]; a function that may raise
      returns a [result].
    - A Python [dict] is an association list in insertion order (the order
      [items()], [keys()] and [values()] iterate in).
    - A one-element float32 tensor is a value of a type [T] carrying the
      operations the script applies to it (class [Tensor]).  The instance the
      script runs with is IEEE binary32 ([f32], from the standard library's
      executable [SpecFloat] with precision 24 and maximal exponent 128);
      an exact instance over canonical rationals is given for comparison.
    - A Python [float] is IEEE binary64 ([f64], [SpecFloat] with precision
      53 and maximal exponent 1024).  The integers the script converts or
      divides are counts, indices and steps; the [OverflowError] of an
      integer beyond the binary64 range (from [2^1024] on) is outside the
      model.
    - The networks (point encoder, structure encoder, decoder), the data
      loaders and the checkpoint store are external: they appear as functions
      and as events of the run's trace.
    - The interpreter's recursion ceiling ([sys.setrecursionlimit]) is a
      resource bound of the host and is outside the model. *)

From Stdlib Require Import ZArith QArith Qcanon List String Bool Lia Arith.
From Stdlib Require Import Floats.SpecFloat.
Import ListNotations.

Set Warnings "-register-all".

Local Close Scope Qc_scope.
Local Close Scope Q_scope.
Local Open Scope nat_scope.
Local Open Scope string_scope.
Local Open Scope list_scope.

(** ** Exceptions and results *)

Inductive Exn : Type :=
| KeyError (key : string)
| ValueError
| IndexError
| UnboundLocalError (name : string)
| SystemExit
| EOFError
| FileExistsError
| ZeroDivisionError
| StopIteration
| CheckpointError.

Inductive result (A : Type) : Type :=
| Ok (a : A)
| Raise (e : Exn).

Arguments Ok {A} a.
Arguments Raise {A} e.

Definition rbind {A B : Type} (m : result A) (f : A -> result B) : result B :=
  match m with
  | Ok a => f a
  | Raise e => Raise e
  end.

Declare Scope py_scope.
Delimit Scope py_scope with py.
Notation "x <- m ;; k" := (rbind m (fun x => k))
  (at level 100, m at next level, right associativity) : py_scope.
Notation "' p <- m ;; k" := (rbind m (fun p => k))
  (at level 100, p pattern, m at next level, right associativity) : py_scope.
Local Open Scope py_scope.

Definition is_ok {A : Type} (r : result A) : bool :=
  match r with Ok _ => true | Raise _ => false end.

(** ** Dictionaries and lists, as Python has them *)

Definition dict (V : Type) : Type := list (string * V).

Definition keys {V : Type} (d : dict V) : list string := map fst d.
Definition values {V : Type} (d : dict V) : list V := map snd d.
Definition items {V : Type} (d : dict V) : list (string * V) := d.

(** [d[k]]: raises [KeyError] on a missing key. *)
Fixpoint getitem {V : Type} (d : dict V) (k : string) : result V :=
  match d with
  | [] => Raise (KeyError k)
  | (k', v) :: d' => if String.eqb k' k then Ok v else getitem d' k
  end.

(** [d[k] = v]: rebinds an existing key in place, appends a new one. *)
Fixpoint setitem {V : Type} (d : dict V) (k : string) (v : V) : dict V :=
  match d with
  | [] => [(k, v)]
  | (k', v') :: d' =>
      if String.eqb k' k then (k', v) :: d' else (k', v') :: setitem d' k v
  end.

(** [l.index(x)]: raises [ValueError] when [x] does not occur. *)
Fixpoint index (l : list string) (x : string) : result nat :=
  match l with
  | [] => Raise ValueError
  | y :: l' => if String.eqb y x then Ok 0 else (i <- index l' x ;; Ok (S i))
  end.

(** [l[i]] for a non-negative [i]: raises [IndexError] out of range. *)
Definition list_getitem {A : Type} (l : list A) (i : nat) : result A :=
  match nth_error l i with
  | Some a => Ok a
  | None => Raise IndexError
  end.

(** ** Tensors *)

(** The operations [train_stage3.py] applies to a loss tensor:
    [torch.zeros(1)], [t + t'], [t / cnt] with [cnt] a Python [int], and
    [t *= w] with [w] a configured weight (taken at the tensor's precision).
    None of them raises. *)
Class Tensor (T : Type) : Type := {
  tzero : T;
  tadd : T -> T -> T;
  tdiv_int : T -> nat -> T;
  tmul : T -> T -> T
}.

(** IEEE binary32, the dtype of [torch.zeros(1)]: round to nearest, ties to
    even; a division by zero yields an infinity or NaN and raises nothing.
    The count [cnt] is converted to binary32 before the division. *)
Definition f32 : Type := spec_float.
Definition f32_of_Z (z : Z) : f32 := binary_normalize 24 128 z 0 false.
Definition f32_nan : f32 := S754_nan.

#[export] Instance f32_Tensor : Tensor f32 := {
  tzero := S754_zero false;
  tadd := SFadd 24 128;
  tdiv_int := fun t cnt => SFdiv 24 128 t (f32_of_Z (Z.of_nat cnt));
  tmul := SFmul 24 128
}.


(** ** Python floats *)

(** IEEE binary64, round to nearest, ties to even. *)
Definition f64 : Type := spec_float.

(** [float(z)] of an integer: the nearest binary64 number. *)
Definition f64_of_Z (z : Z) : f64 := binary_normalize 53 1024 z 0 false.

Definition f64_add : f64 -> f64 -> f64 := SFadd 53 1024.
Definition f64_sub : f64 -> f64 -> f64 := SFsub 53 1024.
Definition f64_mul : f64 -> f64 -> f64 := SFmul 53 1024.
Definition f64_div : f64 -> f64 -> f64 := SFdiv 53 1024.

(** [x <= y] on floats: false when either is NaN. *)
Definition f64_leb : f64 -> f64 -> bool := SFleb.

(** [a / b] of two integers [0 <= a] and [0 < b]: Python rounds the exact
    quotient once (it does not divide the two converted operands), which is
    the library's division core applied to the two integers. *)
Definition f64_quot (a b : Z) : f64 :=
  match a with
  | Zpos _ =>
      let '(q, e, l) := SFdiv_core_binary 53 1024 a 0 b 0 in
      binary_round_aux 53 1024 false q e l
  | _ => S754_zero false
  end.

(** The exact value of a finite float ([0] for an infinity or NaN). *)
Definition f64_exact (x : f64) : Q :=
  match x with
  | S754_finite s m e =>
      Qred (inject_Z (if s then Z.neg m else Z.pos m) * (2 # 1) ^ e)%Q
  | _ => (0 # 1)%Q
  end.

(** [x >= z] for a float [x] and an integer [z]: Python compares the two
    exact values; NaN compares false. *)
Definition f64_ge_int (x : f64) (z : Z) : bool :=
  match x with
  | S754_nan => false
  | S754_infinity s => negb s
  | _ => Qle_bool (inject_Z z) (f64_exact x)
  end.

(** ** The tree model consumed by the aggregator *)

Section Model.

Context {T : Type} `{Tensor T}.
(** [Geo]: a node's normalised point cloud; [Code]: the point encoder's
    output; [Latent]: the structure encoder's output. *)
Context {Geo Code Latent : Type}.

Inductive Node : Type :=
| mkNode (norm_geo : Geo) (children : list Node).

Definition norm_geo (n : Node) : Geo := match n with mkNode g _ => g end.
Definition children (n : Node) : list Node := match n with mkNode _ cs => cs end.

Record Obj : Type := { root : Node }.

(** Number of nodes of a tree: the root and all its descendants. *)
Fixpoint tree_size (n : Node) : nat :=
  match n with
  | mkNode _ cs => S (fold_right (fun c k => tree_size c + k) 0 cs)
  end.

(** All nodes of a tree in the order the aggregator visits them. *)
Fixpoint preorder (n : Node) : list Node :=
  match n with
  | mkNode _ cs => n :: flat_map preorder cs
  end.

(** The decoder, as far as this script uses it: [node_recon_loss] returns a
    dict of named losses (its two other results are discarded). *)
Record Decoder : Type := {
  node_recon_loss : Code -> Node -> dict T
}.

(** The structure encoder, as far as this script uses it. *)
Record Encoder : Type := {
  encode_structure : Obj -> Latent
}.

(** ** Per-node loss aggregator *)

(** The loop [for loss_name, loss in obj_losses.items():
    losses[loss_name] = losses[loss_name] + loss]. *)
Fixpoint accumulate (obj_items : list (string * T)) (losses : dict T)
  : result (dict T) :=
  match obj_items with
  | [] => Ok losses
  | (loss_name, loss) :: rest =>
      old <- getitem losses loss_name ;;
      accumulate rest (setitem losses loss_name (tadd old loss))
  end.

Definition forward_one_node (obj_node : Node) (pointencoder : Geo -> Code)
  (decoder : Decoder) (losses : dict T) : result (dict T) :=
  let root_code := pointencoder (norm_geo obj_node) in
  let obj_losses := node_recon_loss decoder root_code obj_node in
  accumulate (items obj_losses) losses.

(** The test [if obj_node.children:] skips the loop for a node without
    children, which is what the loop over no children does. *)
Fixpoint forward_one_obj (obj_node : Node) (pointnet : Geo -> Code)
  (decoder : Decoder) (losses : dict T) (cnt : nat) {struct obj_node}
  : result (dict T * nat) :=
  losses <- forward_one_node obj_node pointnet decoder losses ;;
  let cnt := cnt + 1 in
  match obj_node with
  | mkNode _ cs =>
      (fix loop (cs : list Node) (losses : dict T) (cnt : nat)
         : result (dict T * nat) :=
         match cs with
         | [] => Ok (losses, cnt)
         | child :: cs' =>
             '(losses, cnt) <- forward_one_obj child pointnet decoder losses cnt ;;
             loop cs' losses cnt
         end) cs losses cnt
  end.

(** The children loop of [forward_one_obj], named. *)
Fixpoint for_children (cs : list Node) (pointnet : Geo -> Code)
  (decoder : Decoder) (losses : dict T) (cnt : nat) : result (dict T * nat) :=
  match cs with
  | [] => Ok (losses, cnt)
  | child :: cs' =>
      '(losses, cnt) <- forward_one_obj child pointnet decoder losses cnt ;;
      for_children cs' pointnet decoder losses cnt
  end.

(** ** Batch forward pass *)

(** The fields of the run configuration the script reads and that decide
    values or control flow here.  [seed] is negative when none was given. *)
Record Conf : Type := {
  exp_name : string;
  seed : Z;
  epochs : nat;
  stage_2_epoch : nat;
  no_console_log : bool;
  no_tb_log : bool;
  console_log_interval : Z;
  checkpoint_interval : Z;
  loss_weight_latent : T;
  loss_weight_geo : T;
  loss_weight_center : T;
  loss_weight_scale : T;
  loss_weight_leaf : T;
  loss_weight_exists : T;
  loss_weight_semantic : T;
  loss_weight_edge_exists : T;
  loss_weight_sym : T;
  loss_weight_adj : T
}.

(** The learning rate [point_opt.param_groups[0]['lr']] is only logged; it is
    identified by the number of scheduler steps taken when it is read. *)
Definition LR : Type := nat.

(** One row of the console table (the wall-clock time is left out). *)
Record Metrics : Type := {
  m_epoch : nat;
  m_epochs : nat;
  m_is_valdt : bool;
  m_batch_ind : nat;
  m_num_batch : nat;
  m_percent : f64;
  m_lr : LR;
  m_latent : T;
  m_geo : T;
  m_center : T;
  m_scale : T;
  m_struct : T;
  m_edge_exists : T;
  m_sym : T;
  m_adj : T;
  m_total : T
}.

(** What one call writes to the tensorboard writer. *)
Record TbRecord : Type := {
  tb_step : Q;
  tb_lr : LR;
  tb_scalars : list (string * T)
}.

(** The value [forward] returns and what it logs. *)
Record ForwardOut : Type := {
  total_loss : T;
  losses_out : dict T;
  console : option Metrics;
  tb : option TbRecord
}.

(** The accumulator [forward] starts from. *)
Definition init_losses : dict T :=
  [ ("latent", tzero); ("geo", tzero); ("center", tzero); ("scale", tzero);
    ("leaf", tzero); ("exists", tzero); ("semantic", tzero);
    ("edge_exists", tzero); ("sym", tzero); ("adj", tzero) ].

(** The loop [for obj in objects] of [forward]: the structure encoder is run
    on the object and its result bound to a local that is not read again. *)
Fixpoint for_objects (objects : list Obj) (point : Geo -> Code)
  (encoder : Encoder) (decoder : Decoder) (losses : dict T) (cnt : nat)
  : result (dict T * nat) :=
  match objects with
  | [] => Ok (losses, cnt)
  | obj :: rest =>
      let root_code := encode_structure encoder obj in
      '(losses, cnt) <- forward_one_obj (root obj) point decoder losses cnt ;;
      for_objects rest point encoder decoder losses cnt
  end.

(** The loop [for loss_name in losses.keys():
    losses[loss_name] = losses[loss_name] / cnt]. *)
Fixpoint normalize (loss_names : list string) (losses : dict T) (cnt : nat)
  : result (dict T) :=
  match loss_names with
  | [] => Ok losses
  | loss_name :: rest =>
      v <- getitem losses loss_name ;;
      normalize rest (setitem losses loss_name (tdiv_int v cnt)) cnt
  end.

(** [losses[k] *= w]. *)
Definition imul (losses : dict T) (k : string) (w : T) : result (dict T) :=
  v <- getitem losses k ;;
  Ok (setitem losses k (tmul v w)).

Definition apply_weights (conf : Conf) (losses : dict T) : result (dict T) :=
  losses <- imul losses "latent" (loss_weight_latent conf) ;;
  losses <- imul losses "geo" (loss_weight_geo conf) ;;
  losses <- imul losses "center" (loss_weight_center conf) ;;
  losses <- imul losses "scale" (loss_weight_scale conf) ;;
  losses <- imul losses "leaf" (loss_weight_leaf conf) ;;
  losses <- imul losses "exists" (loss_weight_exists conf) ;;
  losses <- imul losses "semantic" (loss_weight_semantic conf) ;;
  losses <- imul losses "edge_exists" (loss_weight_edge_exists conf) ;;
  losses <- imul losses "sym" (loss_weight_sym conf) ;;
  imul losses "adj" (loss_weight_adj conf).

(** [total_loss = 0; for loss in losses.values(): total_loss += loss]: the
    first addition is [0 + loss], the others add to the running total. *)
Definition sum_losses (losses : dict T) : T :=
  fold_left tadd (values losses) tzero.

(** The progress column [100. * (1+batch_ind+num_batch*epoch) /
    (num_batch*conf.epochs)]: the product is a float, and dividing it by the
    integer zero raises. *)
Definition console_percent (conf : Conf) (epoch batch_ind num_batch : nat)
  : result f64 :=
  let done := f64_mul (f64_of_Z 100)
                (f64_of_Z (Z.of_nat (1 + batch_ind + num_batch * epoch))) in
  match num_batch * epochs conf with
  | 0 => Raise ZeroDivisionError
  | S _ as all => Ok (f64_div done (f64_of_Z (Z.of_nat all)))
  end.

(** The row is one formatted string: its fields are evaluated from left to
    right, the progress column before the losses are read. *)
Definition console_row (conf : Conf) (losses : dict T) (total : T)
  (is_valdt : bool) (epoch batch_ind num_batch : nat) (lr : LR)
  : result Metrics :=
  percent <- console_percent conf epoch batch_ind num_batch ;;
  latent <- getitem losses "latent" ;;
  geo <- getitem losses "geo" ;;
  center <- getitem losses "center" ;;
  scale <- getitem losses "scale" ;;
  leaf <- getitem losses "leaf" ;;
  exists_ <- getitem losses "exists" ;;
  semantic <- getitem losses "semantic" ;;
  edge_exists <- getitem losses "edge_exists" ;;
  sym <- getitem losses "sym" ;;
  adj <- getitem losses "adj" ;;
  Ok {| m_epoch := epoch; m_epochs := epochs conf; m_is_valdt := is_valdt;
        m_batch_ind := batch_ind; m_num_batch := num_batch;
        m_percent := percent; m_lr := lr;
        m_latent := latent; m_geo := geo; m_center := center;
        m_scale := scale; m_struct := tadd (tadd leaf exists_) semantic;
        m_edge_exists := edge_exists; m_sym := sym; m_adj := adj;
        m_total := total |}.

Definition tb_record (losses : dict T) (total : T) (step : Q) (lr : LR)
  : result TbRecord :=
  latent <- getitem losses "latent" ;;
  geo <- getitem losses "geo" ;;
  center <- getitem losses "center" ;;
  scale <- getitem losses "scale" ;;
  leaf <- getitem losses "leaf" ;;
  exists_ <- getitem losses "exists" ;;
  semantic <- getitem losses "semantic" ;;
  edge_exists <- getitem losses "edge_exists" ;;
  sym <- getitem losses "sym" ;;
  adj <- getitem losses "adj" ;;
  Ok {| tb_step := step; tb_lr := lr;
        tb_scalars :=
          [ ("loss", total); ("latent_loss", latent); ("geo_loss", geo);
            ("center_loss", center); ("scale_loss", scale);
            ("leaf_loss", leaf); ("exists_loss", exists_);
            ("semantic_loss", semantic); ("edge_exists_loss", edge_exists);
            ("sym_loss", sym); ("adj_loss", adj) ] |}.

(** [forward], without the arguments that only carry the device, the clock
    and the log file ([obj.to(device)] is the identity here).  [tb_writer] is
    [None] for Python's [None].  [losses_out] is the local dict [losses] as
    it stands when the log rows are read from it. *)
Definition forward (batch : list (list Obj)) (data_features : list string)
  (point : Geo -> Code) (encoder : Encoder) (decoder : Decoder) (conf : Conf)
  (is_valdt : bool) (step : Q) (epoch batch_ind num_batch : nat)
  (log_console log_tb : bool) (tb_writer : option unit) (lr : LR)
  : result ForwardOut :=
  i <- index data_features "object" ;;
  objects <- list_getitem batch i ;;
  let losses := init_losses in
  let cnt := 0 in
  '(losses, cnt) <- for_objects objects point encoder decoder losses cnt ;;
  losses <- normalize (keys losses) losses cnt ;;
  losses <- apply_weights conf losses ;;
  let total_loss := sum_losses losses in
  console <- (if log_console
              then (row <- console_row conf losses total_loss is_valdt
                             epoch batch_ind num_batch lr ;; Ok (Some row))
              else Ok None) ;;
  tb <- (if log_tb && (match tb_writer with Some _ => true | None => false end)
         then (r <- tb_record losses total_loss step lr ;; Ok (Some r))
         else Ok None) ;;
  Ok {| total_loss := total_loss; losses_out := losses;
        console := console; tb := tb |}.

(** ** Training orchestrator *)

(** The three networks [train] creates. *)
Inductive Component : Type := CEncoder | CDecoder | CPointEncoder.

(** The two directories of a run: [os.path.join(conf.log_path, conf.exp_name)]
    and [os.path.join(conf.model_path, conf.exp_name)]. *)
Inductive RunDir : Type := LogDir | ModelDir.

(** Mode and gradient flag of a network's parameters. *)
Record Net : Type := { training : bool; requires_grad : bool }.

(** An optimizer, identified by the network whose [parameters()] it was
    constructed over. *)
Record Optimizer : Type := { opt_params : Component }.

(** A data loader as [train] constructs it (lines 128-135), with
    [shuffle=True]: the construction raises [ValueError] on an empty
    dataset, so a loader that exists yields at least one batch per pass.
    The record holds the index of the last batch of a pass and the batches
    one pass yields; the loaders shuffle, so the batches depend on the pass
    (the epoch). *)
Record DataLoader : Type := {
  last_batch_ind : nat;
  batch_at : nat -> nat -> list (list Obj)
}.

(** [len(loader)]. *)
Definition num_batch (loader : DataLoader) : nat := S (last_batch_ind loader).

(** [enumerate(loader, 0)] for the pass of epoch [epoch]. *)
Definition enumerate (loader : DataLoader) (epoch : nat)
  : list (nat * list (list Obj)) :=
  map (fun i => (i, batch_at loader epoch i)) (seq 0 (num_batch loader)).

(** What the run does to its environment, in order.  Console prints and
    writes to the log file are left out, as are the moves of the networks to
    the device and the [torch.no_grad()] contexts. *)
Inductive Event : Type :=
| EvInput
| EvRmtree (d : RunDir)
| EvMakedirs (d : RunDir)
| EvOpenLog
| EvSeed (s : Z)
| EvSaveConf
| EvLoadCheckpoint (models : list Component) (model_names : list string)
    (epoch : nat) (strict : bool)
| EvAdam (params : Component)
| EvStepLR
| EvSummaryWriter (valdt : bool)
| EvForward (is_valdt : bool) (epoch batch_ind : nat)
| EvOptStep
| EvSchedStep
| EvZeroGrad
| EvBackward (loss : T)
| EvSaveCheckpoint (models : list Component) (model_names : list string)
    (epoch : nat) (prepend_epoch : bool) (optimizers : list Optimizer)
    (optimizer_names : list string)
| EvCloseLog.

(** The state the run reads and changes: the two run directories, the lines
    [input()] will read, the value [random.randint(1, 10000)] would return,
    whether the stage-2 checkpoint loads under [strict=True], the networks'
    flags and the number of scheduler steps taken. *)
Record World : Type := {
  log_dir_exists : bool;
  model_dir_exists : bool;
  stdin : list string;
  randint : Z;
  stage2_loads : bool;
  encoder_net : Net;
  decoder_net : Net;
  pointencoder_net : Net;
  sched_steps : nat
}.

(** State, exceptions and the trace of events. *)
Definition M (A : Type) : Type := World -> result A * World * list Event.

Definition ret {A : Type} (a : A) : M A := fun w => (Ok a, w, []).

Definition bind {A B : Type} (m : M A) (f : A -> M B) : M B :=
  fun w =>
    match m w with
    | (Ok a, w1, t1) =>
        match f a w1 with
        | (r, w2, t2) => (r, w2, t1 ++ t2)
        end
    | (Raise e, w1, t1) => (Raise e, w1, t1)
    end.

Definition raise {A : Type} (e : Exn) : M A := fun w => (Raise e, w, []).
Definition emit (ev : Event) : M unit := fun w => (Ok tt, w, [ev]).
Definition get : M World := fun w => (Ok w, w, []).
Definition put (w : World) : M unit := fun _ => (Ok tt, w, []).
Definition lift {A : Type} (r : result A) : M A := fun w => (r, w, []).

Declare Scope run_scope.
Delimit Scope run_scope with run.
Notation "x <- m ;; k" := (bind m (fun x => k))
  (at level 100, m at next level, right associativity) : run_scope.
Notation "m ;;; k" := (bind m (fun _ => k))
  (at level 100, right associativity) : run_scope.

Definition dir_exists (d : RunDir) (w : World) : bool :=
  match d with LogDir => log_dir_exists w | ModelDir => model_dir_exists w end.

Definition set_dir (d : RunDir) (b : bool) (w : World) : World :=
  match d with
  | LogDir =>
      {| log_dir_exists := b; model_dir_exists := model_dir_exists w;
         stdin := stdin w; randint := randint w;
         stage2_loads := stage2_loads w; encoder_net := encoder_net w;
         decoder_net := decoder_net w; pointencoder_net := pointencoder_net w;
         sched_steps := sched_steps w |}
  | ModelDir =>
      {| log_dir_exists := log_dir_exists w; model_dir_exists := b;
         stdin := stdin w; randint := randint w;
         stage2_loads := stage2_loads w; encoder_net := encoder_net w;
         decoder_net := decoder_net w; pointencoder_net := pointencoder_net w;
         sched_steps := sched_steps w |}
  end.

Definition set_stdin (l : list string) (w : World) : World :=
  {| log_dir_exists := log_dir_exists w; model_dir_exists := model_dir_exists w;
     stdin := l; randint := randint w;
     stage2_loads := stage2_loads w; encoder_net := encoder_net w;
     decoder_net := decoder_net w; pointencoder_net := pointencoder_net w;
     sched_steps := sched_steps w |}.

Definition net_of (c : Component) (w : World) : Net :=
  match c with
  | CEncoder => encoder_net w
  | CDecoder => decoder_net w
  | CPointEncoder => pointencoder_net w
  end.

Definition set_net (c : Component) (n : Net) (w : World) : World :=
  {| log_dir_exists := log_dir_exists w; model_dir_exists := model_dir_exists w;
     stdin := stdin w; randint := randint w; stage2_loads := stage2_loads w;
     encoder_net := match c with CEncoder => n | _ => encoder_net w end;
     decoder_net := match c with CDecoder => n | _ => decoder_net w end;
     pointencoder_net :=
       match c with CPointEncoder => n | _ => pointencoder_net w end;
     sched_steps := sched_steps w |}.

Definition set_sched_steps (k : nat) (w : World) : World :=
  {| log_dir_exists := log_dir_exists w; model_dir_exists := model_dir_exists w;
     stdin := stdin w; randint := randint w; stage2_loads := stage2_loads w;
     encoder_net := encoder_net w; decoder_net := decoder_net w;
     pointencoder_net := pointencoder_net w; sched_steps := k |}.

Local Open Scope run_scope.

(** [input(prompt)]: one line of standard input, [EOFError] at its end. *)
Definition input : M string :=
  w <- get ;;
  match stdin w with
  | [] => raise EOFError
  | line :: rest => put (set_stdin rest w) ;;; emit EvInput ;;; ret line
  end.

Definition rmtree (d : RunDir) : M unit :=
  w <- get ;; put (set_dir d false w) ;;; emit (EvRmtree d).

Definition makedirs (d : RunDir) : M unit :=
  w <- get ;;
  if dir_exists d w then raise FileExistsError
  else put (set_dir d true w) ;;; emit (EvMakedirs d).

(** A freshly constructed network: training mode, gradients required. *)
Definition create (c : Component) : M unit :=
  w <- get ;; put (set_net c {| training := true; requires_grad := true |} w).

(** [m.eval()]. *)
Definition set_eval (c : Component) (w : World) : World :=
  set_net c {| training := false;
               requires_grad := requires_grad (net_of c w) |} w.

Definition eval (c : Component) : M unit :=
  w <- get ;; put (set_eval c w).

(** [for param in m.parameters(): param.requires_grad = False]. *)
Definition no_grad_params (c : Component) : M unit :=
  w <- get ;;
  put (set_net c {| training := training (net_of c w);
                    requires_grad := false |} w).

Fixpoint for_each {A : Type} (l : list A) (f : A -> M unit) : M unit :=
  match l with
  | [] => ret tt
  | a :: l' => f a ;;; for_each l' f
  end.

(** Lines 56-69 of the script: the check for an existing run, the prompt, the
    removal of the old directories and the creation of the new ones. *)
Definition prepare_run_dirs : M unit :=
  w <- get ;;
  (if dir_exists LogDir w || dir_exists ModelDir w
   then response <- input ;;
        if negb (String.eqb response "y") then raise SystemExit else ret tt
   else ret tt) ;;;
  w <- get ;;
  (if dir_exists LogDir w then rmtree LogDir else ret tt) ;;;
  w <- get ;;
  (if dir_exists ModelDir w then rmtree ModelDir else ret tt) ;;;
  makedirs ModelDir ;;;
  makedirs LogDir.

(** [utils.load_checkpoint(..., strict=True)]: any mismatch is fatal. *)
Definition load_checkpoint (models : list Component)
  (model_names : list string) (epoch : nat) (strict : bool) : M unit :=
  w <- get ;;
  if strict && negb (stage2_loads w) then raise CheckpointError
  else emit (EvLoadCheckpoint models model_names epoch strict).

(** [point_scheduler.step()]. *)
Definition scheduler_step : M unit :=
  w <- get ;; put (set_sched_steps (S (sched_steps w)) w) ;;; emit EvSchedStep.

(** The external collaborators [train] constructs: the two structure
    networks, the point encoder (whose output depends on its mode) and the
    two data loaders.  A run whose datasets cannot be loaded, or are empty,
    ends in the constructors' exception before the first epoch and has no
    [External]. *)
Record External : Type := {
  ext_encoder : Encoder;
  ext_decoder : Decoder;
  ext_pointencoder : bool -> Geo -> Code;
  train_dataloader : DataLoader;
  valdt_dataloader : DataLoader
}.

(** The locals of [train] that the batch loops read and assign. *)
Record Locals : Type := {
  last_checkpoint_step : option Z;
  last_train_console_log_step : option Z;
  last_valdt_console_log_step : option f64;
  train_fraction_done : f64;
  valdt_fraction_done : f64;
  valdt_batch_ind : Z
}.

(** Python's true division [a / b] of two non-negative integers: a float. *)
Definition true_div (a b : nat) : result f64 :=
  match b with
  | 0 => Raise ZeroDivisionError
  | S _ => Ok (f64_quot (Z.of_nat a) (Z.of_nat b))
  end.

(** [valdt_step = (epoch + valdt_fraction_done) * train_num_batch - 1], in
    floats: the integers are converted where they meet a float. *)
Definition valdt_step_of (epoch train_num_batch : nat) (fraction : f64) : f64 :=
  f64_sub
    (f64_mul (f64_add (f64_of_Z (Z.of_nat epoch)) fraction)
             (f64_of_Z (Z.of_nat train_num_batch)))
    (f64_of_Z 1).

(** The call of [forward] from [train]: reading an unbound writer raises
    before the call; the point encoder runs in its current mode and the
    learning rate is the optimizer's current one. *)
Definition call_forward (ext : External) (conf : Conf) (is_valdt : bool)
  (step : Q) (epoch batch_ind num_batch : nat) (log_console : bool)
  (writer : option unit) (writer_name : string) (batch : list (list Obj))
  : M ForwardOut :=
  match writer with
  | None => raise (UnboundLocalError writer_name)
  | Some wr =>
      w <- get ;;
      emit (EvForward is_valdt epoch batch_ind) ;;;
      lift (forward batch ["object"]
              (ext_pointencoder ext (training (pointencoder_net w)))
              (ext_encoder ext) (ext_decoder ext) conf is_valdt step epoch
              batch_ind num_batch log_console (negb (no_tb_log conf))
              (Some wr) (sched_steps w))
  end.

(** The loop [while valdt_fraction_done <= train_fraction_done and
    valdt_batch_ind+1 < valdt_num_batch], over the validation iterator.  The
    step handed to [forward] is only passed on to the tensorboard writer; it
    is given by its exact value. *)
Fixpoint valdt_loop (ext : External) (conf : Conf) (models : list Component)
  (valdt_writer : option unit) (epoch train_num_batch valdt_num_batch : nat)
  (valdt_batches : list (nat * list (list Obj))) (l : Locals)
  : M (Locals * list (nat * list (list Obj))) :=
  if f64_leb (valdt_fraction_done l) (train_fraction_done l)
     && (valdt_batch_ind l + 1 <? Z.of_nat valdt_num_batch)%Z
  then
    match valdt_batches with
    | [] => raise StopIteration
    | (ind, batch) :: rest =>
        fraction <- lift (true_div (ind + 1) valdt_num_batch) ;;
        let valdt_step := valdt_step_of epoch train_num_batch fraction in
        let log_console :=
          negb (no_console_log conf)
          && match last_valdt_console_log_step l with
             | None => true
             | Some last =>
                 f64_ge_int (f64_sub valdt_step last) (console_log_interval conf)
             end in
        let l :=
          {| last_checkpoint_step := last_checkpoint_step l;
             last_train_console_log_step := last_train_console_log_step l;
             last_valdt_console_log_step :=
               if log_console then Some valdt_step
               else last_valdt_console_log_step l;
             train_fraction_done := train_fraction_done l;
             valdt_fraction_done := fraction;
             valdt_batch_ind := Z.of_nat ind |} in
        for_each models eval ;;;
        eval CPointEncoder ;;;
        call_forward ext conf true (f64_exact valdt_step) epoch ind
          valdt_num_batch
          log_console valdt_writer "valdt_writer" batch ;;;
        valdt_loop ext conf models valdt_writer epoch train_num_batch
          valdt_num_batch rest l
    end
  else ret (l, valdt_batches).

(** [train_step = epoch * train_num_batch + train_batch_ind]. *)
Definition train_step_of (epoch train_num_batch train_batch_ind : nat) : Z :=
  Z.of_nat (epoch * train_num_batch + train_batch_ind).

(** [log_console] of a training step. *)
Definition train_log_console (conf : Conf) (l : Locals) (train_step : Z)
  : bool :=
  negb (no_console_log conf)
  && match last_train_console_log_step l with
     | None => true
     | Some last => (console_log_interval conf <=? train_step - last)%Z
     end.

(** The test [last_checkpoint_step is None or
    train_step - last_checkpoint_step >= conf.checkpoint_interval]. *)
Definition checkpoint_due (conf : Conf) (l : Locals) (train_step : Z) : bool :=
  match last_checkpoint_step l with
  | None => true
  | Some last => (checkpoint_interval conf <=? train_step - last)%Z
  end.

(** One iteration of [for train_batch_ind, batch in train_batches], up to and
    including the checkpoint. *)
Definition train_one_batch (ext : External) (conf : Conf)
  (point_opt : Optimizer) (train_writer : option unit)
  (epoch train_num_batch : nat) (train_batch_ind : nat)
  (batch : list (list Obj)) (l : Locals) : M Locals :=
  fraction <- lift (true_div (train_batch_ind + 1) train_num_batch) ;;
  let train_step := train_step_of epoch train_num_batch train_batch_ind in
  let log_console := train_log_console conf l train_step in
  out <- call_forward ext conf false (inject_Z train_step) epoch
           train_batch_ind train_num_batch log_console train_writer
           "train_writer" batch ;;
  emit EvOptStep ;;;
  scheduler_step ;;;
  emit EvZeroGrad ;;;
  emit (EvBackward (total_loss out)) ;;;
  let save := checkpoint_due conf l train_step in
  (if save
   then emit (EvSaveCheckpoint [CPointEncoder] ["pointencoder"] epoch true
                [point_opt] ["pointencoder"])
   else ret tt) ;;;
  ret {| last_checkpoint_step :=
           if save then Some train_step else last_checkpoint_step l;
         last_train_console_log_step :=
           if log_console then Some train_step
           else last_train_console_log_step l;
         last_valdt_console_log_step := last_valdt_console_log_step l;
         train_fraction_done := fraction;
         valdt_fraction_done := valdt_fraction_done l;
         valdt_batch_ind := valdt_batch_ind l |}.

(** The loop [for train_batch_ind, batch in train_batches]. *)
Fixpoint for_train_batches (ext : External) (conf : Conf)
  (models : list Component) (point_opt : Optimizer)
  (train_writer valdt_writer : option unit)
  (epoch train_num_batch valdt_num_batch : nat)
  (train_batches valdt_batches : list (nat * list (list Obj))) (l : Locals)
  : M Locals :=
  match train_batches with
  | [] => ret l
  | (train_batch_ind, batch) :: rest =>
      l <- train_one_batch ext conf point_opt train_writer epoch
             train_num_batch train_batch_ind batch l ;;
      lv <- valdt_loop ext conf models valdt_writer epoch train_num_batch
              valdt_num_batch valdt_batches l ;;
      for_train_batches ext conf models point_opt train_writer valdt_writer
        epoch train_num_batch valdt_num_batch rest (snd lv) (fst lv)
  end.

(** The body of [for epoch in range(conf.epochs)]. *)
Definition train_epoch (ext : External) (conf : Conf)
  (models : list Component) (point_opt : Optimizer)
  (train_writer valdt_writer : option unit) (epoch : nat) (l : Locals)
  : M Locals :=
  let train_num_batch := num_batch (train_dataloader ext) in
  let valdt_num_batch := num_batch (valdt_dataloader ext) in
  let train_batches := enumerate (train_dataloader ext) epoch in
  let valdt_batches := enumerate (valdt_dataloader ext) epoch in
  let l :=
    {| last_checkpoint_step := last_checkpoint_step l;
       last_train_console_log_step := last_train_console_log_step l;
       last_valdt_console_log_step := last_valdt_console_log_step l;
       train_fraction_done := S754_zero false;
       valdt_fraction_done := S754_zero false;
       valdt_batch_ind := (-1)%Z |} in
  for_train_batches ext conf models point_opt train_writer valdt_writer
    epoch train_num_batch valdt_num_batch train_batches valdt_batches l.

(** The loop over the epochs; the result carries the last value bound to
    [epoch], if any. *)
Fixpoint for_epochs (ext : External) (conf : Conf) (models : list Component)
  (point_opt : Optimizer) (train_writer valdt_writer : option unit)
  (epoch_range : list nat) (last_epoch : option nat) (l : Locals)
  : M (option nat) :=
  match epoch_range with
  | [] => ret last_epoch
  | epoch :: rest =>
      l <- train_epoch ext conf models point_opt train_writer valdt_writer
             epoch l ;;
      for_epochs ext conf models point_opt train_writer valdt_writer rest
        (Some epoch) l
  end.

Definition initial_locals : Locals :=
  {| last_checkpoint_step := None;
     last_train_console_log_step := None;
     last_valdt_console_log_step := None;
     train_fraction_done := S754_zero false;
     valdt_fraction_done := S754_zero false;
     valdt_batch_ind := (-1)%Z |}.

(** Lines 71-159: everything [train] sets up after the run directories,
    but for the datasets and loaders (lines 126-135), which are the
    [External] the epochs run on.  Returns the model list, the optimizer and
    the two writers (unbound when tensorboard logging is off). *)
Definition init_run (conf : Conf)
  : M (list Component * list string * Optimizer * option unit) :=
  emit EvOpenLog ;;;
  w <- get ;;
  emit (EvSeed (if (seed conf <? 0)%Z then randint w else seed conf)) ;;;
  emit EvSaveConf ;;;
  create CEncoder ;;;
  create CPointEncoder ;;;
  create CDecoder ;;;
  let models := [CEncoder; CDecoder] in
  let model_names := ["encoder"; "decoder"] in
  load_checkpoint models model_names (stage_2_epoch conf) true ;;;
  eval CEncoder ;;;
  no_grad_params CEncoder ;;;
  eval CDecoder ;;;
  no_grad_params CDecoder ;;;
  let point_opt := {| opt_params := CEncoder |} in
  emit (EvAdam (opt_params point_opt)) ;;;
  w <- get ;;
  put (set_sched_steps 0 w) ;;;
  emit EvStepLR ;;;
  writer <- (if negb (no_tb_log conf)
             then emit (EvSummaryWriter false) ;;;
                  emit (EvSummaryWriter true) ;;;
                  ret (Some tt)
             else ret None) ;;
  ret (models, model_names, point_opt, writer).

(** Lines 242-251: the final checkpoint and the closing of the log. *)
Definition final_checkpoint (models : list Component)
  (model_names : list string) (point_opt : Optimizer)
  (last_epoch : option nat) : M unit :=
  match last_epoch with
  | None => raise (UnboundLocalError "epoch")
  | Some epoch =>
      emit (EvSaveCheckpoint models model_names epoch false [point_opt]
              ["pointencoder"]) ;;;
      emit EvCloseLog
  end.

Definition train (ext : External) (conf : Conf) : M unit :=
  prepare_run_dirs ;;;
  setup <- init_run conf ;;
  let '(models, model_names, point_opt, writer) := setup in
  last_epoch <- for_epochs ext conf models point_opt writer writer
                  (seq 0 (epochs conf)) None initial_locals ;;
  final_checkpoint models model_names point_opt last_epoch.

End Model.

(** * Reference notions the properties are stated with *)

Section Reference.

Context {T : Type} `{Tensor T} {Geo Code Latent : Type}.

Local Abbreviation node := (@Node Geo).
Local Abbreviation decoder_t := (@Decoder T Geo Code).
Local Abbreviation encoder_t := (@Encoder Geo Latent).

(** The fixed vocabulary of loss-term names. *)
Definition vocabulary : list string :=
  [ "latent"; "geo"; "center"; "scale"; "leaf"; "exists"; "semantic";
    "edge_exists"; "sym"; "adj" ].

(** The names the decoder reports at a node. *)
Definition node_keys (point : Geo -> Code) (dec : decoder_t) (n : node)
  : list string :=
  keys (node_recon_loss dec (point (norm_geo n)) n).

(** What a run of the aggregator over a forest yields: on success the keys
    are unchanged, the count has grown by the number of nodes and every node
    reported known names only; a failure is the [KeyError] of a name that a
    node reported and the accumulator does not have. *)
Definition agg_spec (point : Geo -> Code) (dec : decoder_t)
  (nodes : list node) (size : nat) (losses : dict T) (cnt : nat)
  (r : result (dict T * nat)) : Prop :=
  match r with
  | Ok (losses', cnt') =>
      keys losses' = keys losses /\ cnt' = cnt + size
      /\ Forall (fun n => Forall (fun k => In k (keys losses))
                            (node_keys point dec n)) nodes
  | Raise e =>
      exists k n, e = KeyError k /\ In n nodes
                  /\ In k (node_keys point dec n) /\ ~ In k (keys losses)
  end.

(** The nodes of a batch in visiting order, and their number. *)
Definition batch_nodes (objects : list (@Obj Geo)) : list node :=
  flat_map (fun o => preorder (root o)) objects.

Definition batch_size (objects : list (@Obj Geo)) : nat :=
  fold_right (fun o k => tree_size (root o) + k) 0 objects.




(** The decoder reports names of the vocabulary only. *)
Definition decoder_in_vocabulary (dec : decoder_t) : Prop :=
  forall code n,
    Forall (fun k => In k vocabulary) (keys (node_recon_loss dec code n)).

(** Every slot of an accumulator divided by one count. *)
Definition divide_all (losses : dict T) (cnt : nat) : dict T :=
  map (fun kv => (fst kv, tdiv_int (snd kv) cnt)) losses.

End Reference.

(** ** Reading a trace *)

Section Traces.

Context {T : Type}.

(** The batch indices of the validation forward passes of a trace, in order. *)
Fixpoint valdt_visited (tr : list (@Event T)) : list nat :=
  match tr with
  | [] => []
  | EvForward true _ i :: tr' => i :: valdt_visited tr'
  | _ :: tr' => valdt_visited tr'
  end.

(** The number of training forward passes of a trace. *)
Fixpoint train_count (tr : list (@Event T)) : nat :=
  match tr with
  | [] => 0
  | EvForward false _ _ :: tr' => S (train_count tr')
  | _ :: tr' => train_count tr'
  end.

(** With [m] validation batches of [num_valdt] and [n] training batches of
    [num_train] consumed, validation is at most one validation batch ahead:
    [m / num_valdt <= n / num_train + 1 / num_valdt]. *)
Definition at_most_one_ahead (num_train num_valdt n m : nat) : Prop :=
  (Qmake (Z.of_nat m) (Pos.of_nat num_valdt)
   <= Qmake (Z.of_nat n) (Pos.of_nat num_train)
      + Qmake 1 (Pos.of_nat num_valdt))%Q.

(** The test [valdt_fraction_done <= train_fraction_done] compares two
    rounded quotients.  On loaders of [num_train] and [num_valdt] batches it
    is exact when, for every number [a] of validation batches and every
    positive number [c] of training batches consumed, it decides as the
    comparison of the fractions [a / num_valdt] and [c / num_train]
    themselves. *)
Definition guard_is_exact (num_train num_valdt : nat) : Prop :=
  forall a c,
    a <= num_valdt -> 1 <= c <= num_train ->
    (f64_leb (f64_quot (Z.of_nat a) (Z.of_nat num_valdt))
             (f64_quot (Z.of_nat c) (Z.of_nat num_train)) = true
     <-> a * num_train <= c * num_valdt).

(** [at_most_one_ahead] holds after every forward pass of the trace, the
    counts of consumed batches starting at [n] and [m]. *)
Fixpoint progress_ok (num_train num_valdt n m : nat) (tr : list (@Event T))
  : Prop :=
  match tr with
  | [] => True
  | EvForward false _ _ :: tr' =>
      at_most_one_ahead num_train num_valdt (S n) m
      /\ progress_ok num_train num_valdt (S n) m tr'
  | EvForward true _ _ :: tr' =>
      at_most_one_ahead num_train num_valdt n (S m)
      /\ progress_ok num_train num_valdt n (S m) tr'
  | _ :: tr' => progress_ok num_train num_valdt n m tr'
  end.

(** The events that change parameters or gradients. *)
Definition is_update (ev : @Event T) : bool :=
  match ev with
  | EvOptStep | EvSchedStep | EvZeroGrad | EvBackward _ => true
  | _ => false
  end.

(** The events of a training step whose forward pass returned [loss]. *)
Definition step_events (opt : Optimizer) (epoch ind : nat) (loss : T)
  (save : bool) : list (@Event T) :=
  [ EvForward false epoch ind; EvOptStep; EvSchedStep; EvZeroGrad;
    EvBackward loss ]
  ++ (if save
      then [ EvSaveCheckpoint [CPointEncoder] ["pointencoder"] epoch true
               [opt] ["pointencoder"] ]
      else []).

(** The world after [for m in models: m.eval()]. *)
Definition eval_all (models : list Component) (w : World) : World :=
  fold_left (fun w c => set_eval c w) models w.

(** Every update event of the trace belongs to a block made of a training
    forward pass followed, in this order, by the optimizer step, the scheduler
    step, the zeroing of the gradients and the backward pass. *)
Inductive updates_in_order : list (@Event T) -> Prop :=
| in_order_nil : updates_in_order []
| in_order_step (epoch batch_ind : nat) (loss : T) (tr : list (@Event T)) :
    updates_in_order tr ->
    updates_in_order
      (EvForward false epoch batch_ind :: EvOptStep :: EvSchedStep
         :: EvZeroGrad :: EvBackward loss :: tr)
| in_order_other (ev : @Event T) (tr : list (@Event T)) :
    is_update ev = false -> updates_in_order tr -> updates_in_order (ev :: tr).

End Traces.

(** * Concrete inputs

    Point clouds and codes are numbers here: the point encoder is the
    identity and the decoder reports the code as the node's [geo] loss. *)

(** The exact value of a finite binary32 number. *)
Definition f32_to_Q (x : f32) : option Q :=
  match x with
  | S754_zero _ => Some (0 # 1)%Q
  | S754_finite s m e =>
      Some (Qred (inject_Z (if s then Z.neg m else Z.pos m) * (2 # 1) ^ e)%Q)
  | _ => None
  end.

Definition ex_leaf (g : Z) : @Node Z := mkNode g [].

(** Tree A: a root and two children, each of geometry [1]. *)
Definition ex_tree_A : @Node Z := mkNode 1%Z [ex_leaf 1%Z; ex_leaf 1%Z].

(** Tree B: a single node of geometry [2]. *)
Definition ex_tree_B : @Node Z := ex_leaf 2%Z.

Definition ex_objects : list (@Obj Z) :=
  [ {| root := ex_tree_A |}; {| root := ex_tree_B |} ].

Definition ex_point : Z -> Z := fun g => g.

Definition ex_encoder : @Encoder Z nat :=
  {| encode_structure := fun _ => 0 |}.

(** Reports [geo] equal to the code and every other term zero. *)
Definition ex_decoder : @Decoder f32 Z Z :=
  {| node_recon_loss := fun code _ =>
       [ ("latent", tzero); ("geo", f32_of_Z code);
         ("center", tzero); ("scale", tzero); ("leaf", tzero);
         ("exists", tzero); ("semantic", tzero); ("edge_exists", tzero);
         ("sym", tzero); ("adj", tzero) ] |}.


(** A decoder that also reports a name outside the vocabulary. *)
Definition ex_decoder_foreign : @Decoder f32 Z Z :=
  {| node_recon_loss := fun code _ =>
       [ ("geo", f32_of_Z code); ("kldiv", tzero) ] |}.

Definition f32_one : f32 := f32_of_Z 1.

(** A configuration with every weight [1.0], both logs on. *)
Definition ex_conf : @Conf f32 :=
  {| exp_name := "run"; seed := 3; epochs := 1; stage_2_epoch := 0;
     no_console_log := false; no_tb_log := false;
     console_log_interval := 1; checkpoint_interval := 1;
     loss_weight_latent := f32_one; loss_weight_geo := f32_one;
     loss_weight_center := f32_one; loss_weight_scale := f32_one;
     loss_weight_leaf := f32_one; loss_weight_exists := f32_one;
     loss_weight_semantic := f32_one; loss_weight_edge_exists := f32_one;
     loss_weight_sym := f32_one; loss_weight_adj := f32_one |}.


(** Two training batches and three validation batches per epoch, each the
    batch of tree A and tree B. *)
Definition ex_loader (n : nat) : @DataLoader Z :=
  {| last_batch_ind := n - 1; batch_at := fun _ _ => [ex_objects] |}.

Definition ex_external : @External f32 Z Z nat :=
  {| ext_encoder := ex_encoder; ext_decoder := ex_decoder;
     ext_pointencoder := fun _ => ex_point;
     train_dataloader := ex_loader 2; valdt_dataloader := ex_loader 3 |}.

Definition ex_net : Net := {| training := true; requires_grad := true |}.

(** A world where the log directory of the run exists and the user answers
    [answer]. *)
Definition ex_world (answer : string) : World :=
  {| log_dir_exists := true; model_dir_exists := false; stdin := [answer];
     randint := 42; stage2_loads := true; encoder_net := ex_net;
     decoder_net := ex_net; pointencoder_net := ex_net; sched_steps := 0 |}.

(** * Further notions: the traversal, the weights, the values of a result *)

Section MoreReference.

Context {T : Type} `{Tensor T} {Geo Code Latent : Type}.

Local Abbreviation node := (@Node Geo).
Local Abbreviation decoder_t := (@Decoder T Geo Code).

(** [forward_one_node] applied to a list of nodes from left to right, the
    count growing by one per node. *)
Fixpoint fold_nodes (nodes : list node) (point : Geo -> Code)
  (dec : decoder_t) (losses : dict T) (cnt : nat) : result (dict T * nat) :=
  match nodes with
  | [] => Ok (losses, cnt)
  | n :: rest =>
      losses <- forward_one_node n point dec losses ;;
      fold_nodes rest point dec losses (cnt + 1)
  end.

(** The ten configured weights, in the order of the vocabulary. *)
Definition weights (conf : @Conf T) : list T :=
  [ loss_weight_latent conf; loss_weight_geo conf; loss_weight_center conf;
    loss_weight_scale conf; loss_weight_leaf conf; loss_weight_exists conf;
    loss_weight_semantic conf; loss_weight_edge_exists conf;
    loss_weight_sym conf; loss_weight_adj conf ].

(** Every slot divided by the count and multiplied by the weight at the same
    position. *)
Definition weighted_mean (conf : @Conf T) (acc : dict T) (cnt : nat)
  : dict T :=
  map (fun kvw => (fst (fst kvw), tmul (tdiv_int (snd (fst kvw)) cnt) (snd kvw)))
      (combine acc (weights conf)).


End MoreReference.

(** The batch indices of the training forward passes of a trace, in order. *)
Fixpoint train_visited {T : Type} (tr : list (@Event T)) : list nat :=
  match tr with
  | [] => []
  | EvForward false _ i :: tr' => i :: train_visited tr'
  | _ :: tr' => train_visited tr'
  end.

(** The number of events of a trace that satisfy [p]. *)
Definition count_events {T : Type} (p : @Event T -> bool)
  (tr : list (@Event T)) : nat :=
  List.length (filter p tr).

Definition is_opt_step {T : Type} (ev : @Event T) : bool :=
  match ev with EvOptStep => true | _ => false end.
Definition is_sched_step {T : Type} (ev : @Event T) : bool :=
  match ev with EvSchedStep => true | _ => false end.
Definition is_zero_grad {T : Type} (ev : @Event T) : bool :=
  match ev with EvZeroGrad => true | _ => false end.
Definition is_backward {T : Type} (ev : @Event T) : bool :=
  match ev with EvBackward _ => true | _ => false end.
Definition is_forward {T : Type} (ev : @Event T) : bool :=
  match ev with EvForward _ _ _ => true | _ => false end.
Definition is_save {T : Type} (ev : @Event T) : bool :=
  match ev with EvSaveCheckpoint _ _ _ _ _ _ => true | _ => false end.

(** How the epochs may change the world: the run directories, the input
    left to read and the gradient flags stay as they are, a network in
    evaluation mode stays in evaluation mode, and the scheduler only steps
    forward. *)
Definition world_step (w w' : World) : Prop :=
  log_dir_exists w' = log_dir_exists w
  /\ model_dir_exists w' = model_dir_exists w
  /\ stdin w' = stdin w
  /\ (forall c, requires_grad (net_of c w') = requires_grad (net_of c w))
  /\ (forall c, training (net_of c w) = false ->
                training (net_of c w') = false)
  /\ sched_steps w <= sched_steps w'.

(** The events an epoch may emit: forward passes of an epoch in [E], update
    events, and checkpoints of the point encoder alone with the optimizer
    [opt], tagged with an epoch in [E]. *)
Definition epoch_event {T : Type} (opt : Optimizer) (E : nat -> Prop)
  (ev : @Event T) : Prop :=
  match ev with
  | EvForward _ e _ => E e
  | EvOptStep | EvSchedStep | EvZeroGrad | EvBackward _ => True
  | EvSaveCheckpoint ms names e prepend opts opt_names =>
      ms = [CPointEncoder] /\ names = ["pointencoder"] /\ E e
      /\ prepend = true /\ opts = [opt] /\ opt_names = ["pointencoder"]
  | _ => False
  end.

(** The checkpoint test of a training step, on the step of the last
    checkpoint. *)
Definition due (interval : Z) (last : option Z) (step : Z) : bool :=
  match last with
  | None => true
  | Some s => (interval <=? step - s)%Z
  end.

(** [checkpoints_when_due interval nt last tr last']: along the trace [tr],
    started when the last checkpoint was taken at step [last], a checkpoint
    follows the update block of a training step exactly when it is due at
    that step, it is tagged with the epoch of the step, and no checkpoint
    occurs anywhere else; [last'] is the step of the last checkpoint at the
    end.  The step of batch [i] of epoch [e] is [e * nt + i]. *)
Inductive checkpoints_when_due {T : Type} (interval : Z) (nt : nat)
  : option Z -> list (@Event T) -> option Z -> Prop :=
| when_due_nil (last : option Z) : checkpoints_when_due interval nt last [] last
| when_due_saved (last last' : option Z) (e i : nat) (loss : T)
    (ms : list Component) (names : list string) (prepend : bool)
    (opts : list Optimizer) (opt_names : list string) (tr : list (@Event T)) :
    due interval last (train_step_of e nt i) = true ->
    checkpoints_when_due interval nt (Some (train_step_of e nt i)) tr last' ->
    checkpoints_when_due interval nt last
      (EvForward false e i :: EvOptStep :: EvSchedStep :: EvZeroGrad
         :: EvBackward loss
         :: EvSaveCheckpoint ms names e prepend opts opt_names :: tr) last'
| when_due_skipped (last last' : option Z) (e i : nat) (loss : T)
    (tr : list (@Event T)) :
    due interval last (train_step_of e nt i) = false ->
    checkpoints_when_due interval nt last tr last' ->
    checkpoints_when_due interval nt last
      (EvForward false e i :: EvOptStep :: EvSchedStep :: EvZeroGrad
         :: EvBackward loss :: tr) last'
| when_due_other (last last' : option Z) (ev : @Event T)
    (tr : list (@Event T)) :
    is_update ev = false -> is_save ev = false ->
    checkpoints_when_due interval nt last tr last' ->
    checkpoints_when_due interval nt last (ev :: tr) last'.

(** A validation forward pass. *)
Definition is_valdt_forward {T : Type} (ev : @Event T) : bool :=
  match ev with EvForward true _ _ => true | _ => false end.

(** The events of the preparation of the run directories. *)
Definition is_dir_event {T : Type} (ev : @Event T) : bool :=
  match ev with
  | EvInput | EvRmtree _ | EvMakedirs _ => true
  | _ => false
  end.

(** A world without an earlier run of the same name. *)
Definition ex_world_fresh : World :=
  {| log_dir_exists := false; model_dir_exists := false; stdin := [];
     randint := 42; stage2_loads := true; encoder_net := ex_net;
     decoder_net := ex_net; pointencoder_net := ex_net; sched_steps := 0 |}.

(** A world whose stage-2 checkpoint does not match the networks. *)
Definition ex_world_mismatch : World :=
  {| log_dir_exists := false; model_dir_exists := false; stdin := [];
     randint := 42; stage2_loads := false; encoder_net := ex_net;
     decoder_net := ex_net; pointencoder_net := ex_net; sched_steps := 0 |}.

(** [ex_conf] with tensorboard logging off, and with no epoch. *)
Definition ex_conf_no_tb : @Conf f32 :=
  {| exp_name := "run"; seed := 3; epochs := 1; stage_2_epoch := 0;
     no_console_log := false; no_tb_log := true;
     console_log_interval := 1; checkpoint_interval := 1;
     loss_weight_latent := f32_one; loss_weight_geo := f32_one;
     loss_weight_center := f32_one; loss_weight_scale := f32_one;
     loss_weight_leaf := f32_one; loss_weight_exists := f32_one;
     loss_weight_semantic := f32_one; loss_weight_edge_exists := f32_one;
     loss_weight_sym := f32_one; loss_weight_adj := f32_one |}.

Definition ex_conf_no_epochs : @Conf f32 :=
  {| exp_name := "run"; seed := 3; epochs := 0; stage_2_epoch := 0;
     no_console_log := false; no_tb_log := false;
     console_log_interval := 1; checkpoint_interval := 1;
     loss_weight_latent := f32_one; loss_weight_geo := f32_one;
     loss_weight_center := f32_one; loss_weight_scale := f32_one;
     loss_weight_leaf := f32_one; loss_weight_exists := f32_one;
     loss_weight_semantic := f32_one; loss_weight_edge_exists := f32_one;
     loss_weight_sym := f32_one; loss_weight_adj := f32_one |}.

(** Loaders of [2^54 + 1] training batches and [2^54] validation batches:
    the floats [1 / 2^54] and [1 / (2^54 + 1)] are equal. *)
Definition ex_huge_pred : nat := Z.to_nat 18014398509481983.

Definition ex_external_huge : @External f32 Z Z nat :=
  {| ext_encoder := ex_encoder; ext_decoder := ex_decoder;
     ext_pointencoder := fun _ => ex_point;
     train_dataloader :=
       {| last_batch_ind := S ex_huge_pred;
          batch_at := fun _ _ => [ex_objects] |};
     valdt_dataloader :=
       {| last_batch_ind := ex_huge_pred;
          batch_at := fun _ _ => [ex_objects] |} |}.

(** A decoder that reports a NaN [geo] loss at the node of geometry [2]. *)
Definition ex_decoder_nan : @Decoder f32 Z Z :=
  {| node_recon_loss := fun code _ =>
       [ ("geo", if (code =? 2)%Z then f32_nan else f32_of_Z code) ] |}.


(** * Properties *)

(** ** Dictionaries *)

Lemma getitem_In {V : Type} (d : dict V) (k : string) (v : V) :
  getitem d k = Ok v -> In k (keys d).
Proof.
  induction d as [|[k' v'] d IH]; simpl; [discriminate|].
  destruct (String.eqb_spec k' k) as [->|Hne]; intros Hg; [now left|].
  right; now apply IH.
Qed.

Lemma getitem_Raise {V : Type} (d : dict V) (k : string) (e : Exn) :
  getitem d k = Raise e -> e = KeyError k /\ ~ In k (keys d).
Proof.
  induction d as [|[k' v'] d IH]; simpl.
  - intros [= <-]; split; [reflexivity | tauto].
  - destruct (String.eqb_spec k' k) as [->|Hne]; [discriminate|].
    intros Hg; destruct (IH Hg) as [-> Hn]; split; [reflexivity|].
    intros [Heq|Hin]; [now apply Hne | now apply Hn].
Qed.

Lemma keys_setitem {V : Type} (d : dict V) (k : string) (v : V) :
  In k (keys d) -> keys (setitem d k v) = keys d.
Proof.
  induction d as [|[k' v'] d IH]; simpl; [tauto|].
  destruct (String.eqb_spec k' k) as [->|Hne]; [reflexivity|].
  intros [Heq|Hin]; [now destruct Hne|]; simpl; f_equal; now apply IH.
Qed.

(** ** The aggregator: keys, count and failures *)

Section AggregatorFacts.

Context {T : Type} `{Tensor T} {Geo Code Latent : Type}.

Local Abbreviation node := (@Node Geo).
Local Abbreviation decoder_t := (@Decoder T Geo Code).
Local Abbreviation encoder_t := (@Encoder Geo Latent).

(** Induction over trees, with the hypothesis available for every child. *)
Lemma Node_rect_children (P : node -> Prop) :
  (forall g cs, Forall P cs -> P (mkNode g cs)) -> forall n, P n.
Proof.
  intros Hstep; fix IH 1; intros [g cs]; apply Hstep.
  induction cs as [|c cs IHcs]; constructor; [apply IH | exact IHcs].
Qed.

Lemma forward_one_obj_eq (n : node) (point : Geo -> Code) (dec : decoder_t)
  (losses : dict T) (cnt : nat) :
  forward_one_obj n point dec losses cnt =
  (losses' <- forward_one_node n point dec losses ;;
   for_children (children n) point dec losses' (cnt + 1))%py.
Proof.
  destruct n as [g cs]; simpl.
  destruct (forward_one_node (mkNode g cs) point dec losses) as [l1|e];
    simpl; [|reflexivity].
  generalize (cnt + 1); generalize l1; clear.
  induction cs as [|c cs IH]; intros l1 k; simpl; [reflexivity|].
  destruct (forward_one_obj c point dec l1 k) as [[l2 k2]|e]; simpl;
    [apply IH | reflexivity].
Qed.

Lemma accumulate_spec (its : list (string * T)) (losses : dict T) :
  match accumulate its losses with
  | Ok losses' =>
      keys losses' = keys losses
      /\ Forall (fun k => In k (keys losses)) (map fst its)
  | Raise e =>
      exists k, e = KeyError k /\ In k (map fst its) /\ ~ In k (keys losses)
  end.
Proof.
  revert losses; induction its as [|[k v] its IH]; intros losses; simpl.
  - split; [reflexivity | constructor].
  - destruct (getitem losses k) as [old|e] eqn:Hg; simpl.
    + pose proof (getitem_In _ _ _ Hg) as Hin.
      specialize (IH (setitem losses k (tadd old v))).
      rewrite (keys_setitem _ _ _ Hin) in IH.
      destruct (accumulate its (setitem losses k (tadd old v))) as [l'|e].
      * destruct IH as [Hk Hall]; split; [exact Hk | now constructor].
      * destruct IH as (k' & -> & Hin' & Hn); exists k'; simpl; tauto.
    + destruct (getitem_Raise _ _ _ Hg) as [-> Hn]; exists k; simpl; tauto.
Qed.

Lemma forward_one_obj_spec (point : Geo -> Code) (dec : decoder_t) (n : node) :
  forall losses cnt,
    agg_spec point dec (preorder n) (tree_size n) losses cnt
      (forward_one_obj n point dec losses cnt).
Proof.
  induction n as [g cs IHcs] using Node_rect_children; intros losses cnt.
  rewrite forward_one_obj_eq; unfold forward_one_node; simpl norm_geo.
  pose proof (accumulate_spec
                (items (node_recon_loss dec (point g) (mkNode g cs))) losses)
    as Hacc.
  destruct (accumulate _ losses) as [l1|e]; simpl rbind.
  - destruct Hacc as [Hk1 Hall1].
    assert (Hch : forall l c,
               agg_spec point dec (flat_map preorder cs)
                 (fold_right (fun c k => tree_size c + k) 0 cs) l c
                 (for_children cs point dec l c)).
    { clear Hk1 Hall1 l1. induction IHcs as [|c cs Hc _ IH]; intros l k; simpl.
      - repeat split; [lia | constructor].
      - specialize (Hc l k).
        destruct (forward_one_obj c point dec l k) as [[l2 k2]|e]; simpl.
        + destruct Hc as (Hk2 & -> & Hall2). specialize (IH l2 (k + tree_size c)).
          destruct (for_children cs point dec l2 (k + tree_size c))
            as [[l3 k3]|e]; simpl in *.
          * destruct IH as (Hk3 & -> & Hall3). rewrite Hk2 in *.
            repeat split; [exact Hk3 | lia |].
            apply Forall_app; split; assumption.
          * destruct IH as (k' & n' & -> & Hin & Hkin & Hn).
            exists k', n'; rewrite Hk2 in Hn; repeat split; try assumption.
            apply in_or_app; now right.
        + destruct Hc as (k' & n' & -> & Hin & Hkin & Hn).
          exists k', n'; repeat split; try assumption.
          apply in_or_app; now left. }
    specialize (Hch l1 (cnt + 1)). simpl children.
    destruct (for_children cs point dec l1 (cnt + 1)) as [[l3 k3]|e];
      simpl in *.
    + destruct Hch as (Hk3 & -> & Hall3). rewrite Hk1 in *.
      repeat split; [exact Hk3 | lia |].
      constructor; [exact Hall1 | exact Hall3].
    + destruct Hch as (k' & n' & -> & Hin & Hkin & Hn).
      exists k', n'; rewrite Hk1 in Hn; repeat split; try assumption.
      now right.
  - destruct Hacc as (k & -> & Hin & Hn).
    exists k, (mkNode g cs); repeat split; try assumption. now left.
Qed.

Lemma for_objects_spec (point : Geo -> Code) (enc : encoder_t)
  (dec : decoder_t) (objects : list (@Obj Geo)) :
  forall losses cnt,
    agg_spec point dec (batch_nodes objects) (batch_size objects) losses cnt
      (for_objects objects point enc dec losses cnt).
Proof.
  induction objects as [|o objects IH]; intros losses cnt; simpl.
  - repeat split; [lia | constructor].
  - pose proof (forward_one_obj_spec point dec (root o) losses cnt) as Ho.
    destruct (forward_one_obj (root o) point dec losses cnt)
      as [[l2 k2]|e]; simpl in *.
    + destruct Ho as (Hk2 & -> & Hall2).
      specialize (IH l2 (cnt + tree_size (root o))).
      destruct (for_objects objects point enc dec l2 _) as [[l3 k3]|e];
        simpl in *.
      * destruct IH as (Hk3 & -> & Hall3). rewrite Hk2 in *.
        repeat split; [exact Hk3 | lia |].
        apply Forall_app; split; assumption.
      * destruct IH as (k' & n' & -> & Hin & Hkin & Hn).
        exists k', n'; rewrite Hk2 in Hn; repeat split; try assumption.
        apply in_or_app; now right.
    + destruct Ho as (k' & n' & -> & Hin & Hkin & Hn).
      exists k', n'; repeat split; try assumption.
      apply in_or_app; now left.
Qed.

(** ** The batch forward pass after the object loop *)

Lemma dict_of_vocabulary (d : dict T) :
  keys d = vocabulary ->
  exists a0 a1 a2 a3 a4 a5 a6 a7 a8 a9,
    d = [ ("latent", a0); ("geo", a1); ("center", a2); ("scale", a3);
          ("leaf", a4); ("exists", a5); ("semantic", a6);
          ("edge_exists", a7); ("sym", a8); ("adj", a9) ].
Proof.
  unfold vocabulary, keys; intros Hk.
  do 10 (destruct d as [|[? ?] d]; [discriminate|];
         simpl in Hk; injection Hk as <- Hk).
  destruct d; [|discriminate].
  do 10 eexists; reflexivity.
Qed.

Lemma normalize_vocabulary (d : dict T) (cnt : nat) :
  keys d = vocabulary -> normalize (keys d) d cnt = Ok (divide_all d cnt).
Proof.
  intros Hk; destruct (dict_of_vocabulary d Hk)
    as (a0 & a1 & a2 & a3 & a4 & a5 & a6 & a7 & a8 & a9 & ->).
  reflexivity.
Qed.

Lemma keys_divide_all (d : dict T) (cnt : nat) :
  keys (divide_all d cnt) = keys d.
Proof. unfold divide_all, keys; rewrite map_map; reflexivity. Qed.

Lemma apply_weights_vocabulary (conf : Conf) (d : dict T) :
  keys d = vocabulary ->
  exists d', apply_weights conf d = Ok d' /\ keys d' = vocabulary.
Proof.
  intros Hk; destruct (dict_of_vocabulary d Hk)
    as (a0 & a1 & a2 & a3 & a4 & a5 & a6 & a7 & a8 & a9 & ->).
  eexists; split; reflexivity.
Qed.

Lemma console_percent_Ok (conf : @Conf T) (epoch batch_ind nb : nat) :
  nb * epochs conf <> 0 ->
  exists p, console_percent conf epoch batch_ind nb = Ok p.
Proof.
  intros Hne; unfold console_percent.
  destruct (nb * epochs conf); [congruence | eexists; reflexivity].
Qed.


(** The row of a dict over the vocabulary fails only in its progress
    column. *)
Lemma console_row_vocabulary (conf : Conf) (d : dict T) (total : T)
  (is_valdt : bool) (epoch batch_ind nb : nat) (lr : LR) :
  keys d = vocabulary ->
  match console_percent conf epoch batch_ind nb with
  | Ok _ =>
      exists row,
        console_row conf d total is_valdt epoch batch_ind nb lr = Ok row
  | Raise e => console_row conf d total is_valdt epoch batch_ind nb lr = Raise e
  end.
Proof.
  intros Hk; destruct (dict_of_vocabulary d Hk)
    as (a0 & a1 & a2 & a3 & a4 & a5 & a6 & a7 & a8 & a9 & ->).
  unfold console_row.
  destruct (console_percent conf epoch batch_ind nb);
    [eexists|]; reflexivity.
Qed.

Lemma tb_record_vocabulary (d : dict T) (total : T) (step : Q) (lr : LR) :
  keys d = vocabulary -> exists r, tb_record d total step lr = Ok r.
Proof.
  intros Hk; destruct (dict_of_vocabulary d Hk)
    as (a0 & a1 & a2 & a3 & a4 & a5 & a6 & a7 & a8 & a9 & ->).
  eexists; reflexivity.
Qed.

(** [forward] on a batch whose only feature column is the objects: an
    exception of the object loop is passed on; after it the weighted terms
    exist, and the call returns them unless the console row is asked for and
    its progress column raises. *)
Lemma forward_after_loop (objects : list (@Obj Geo))
  (more : list (list (@Obj Geo))) (point : Geo -> Code) (enc : encoder_t)
  (dec : decoder_t) (conf : Conf) (is_valdt : bool) (step : Q)
  (epoch batch_ind nb : nat) (log_console log_tb : bool)
  (tb_writer : option unit) (lr : LR) :
  match for_objects objects point enc dec init_losses 0 with
  | Ok (acc, cnt) =>
      exists d',
        apply_weights conf (divide_all acc cnt) = Ok d'
        /\ keys d' = vocabulary
        /\ match (if log_console
                  then console_percent conf epoch batch_ind nb
                  else Ok (S754_zero false)) with
           | Ok _ =>
               exists out,
                 forward (objects :: more) ["object"] point enc dec conf
                   is_valdt step epoch batch_ind nb log_console log_tb
                   tb_writer lr = Ok out
                 /\ losses_out out = d'
                 /\ total_loss out = sum_losses d'
           | Raise e =>
               forward (objects :: more) ["object"] point enc dec conf
                 is_valdt step epoch batch_ind nb log_console log_tb
                 tb_writer lr = Raise e
           end
  | Raise e =>
      forward (objects :: more) ["object"] point enc dec conf is_valdt step
        epoch batch_ind nb log_console log_tb tb_writer lr = Raise e
  end.
Proof.
  unfold forward; cbn [index String.eqb Ascii.eqb Bool.eqb rbind list_getitem nth_error].
  pose proof (for_objects_spec point enc dec objects init_losses 0) as Hspec.
  destruct (for_objects objects point enc dec init_losses 0) as [[acc cnt]|e];
    cbn [rbind]; [|reflexivity].
  destruct Hspec as (Hk & _ & _). change (keys init_losses) with vocabulary in Hk.
  rewrite (normalize_vocabulary acc cnt Hk); cbn [rbind].
  destruct (apply_weights_vocabulary conf (divide_all acc cnt)) as (d' & -> & Hk').
  { now rewrite keys_divide_all. }
  cbn [rbind]. exists d'; split; [reflexivity|]; split; [assumption|].
  pose proof (console_row_vocabulary conf d' (sum_losses d') is_valdt epoch
                batch_ind nb lr Hk') as Hrow.
  destruct (tb_record_vocabulary d' (sum_losses d') step lr Hk') as (r & Hr).
  rewrite Hr.
  destruct log_console.
  - destruct (console_percent conf epoch batch_ind nb) as [p|e].
    + destruct Hrow as (row & ->).
      destruct log_tb, tb_writer; cbn; eexists; repeat split.
    + rewrite Hrow; reflexivity.
  - destruct log_tb, tb_writer; cbn; eexists; repeat split.
Qed.

(** When the console row is silent or its progress column is defined, the
    call returns whenever the object loop does. *)
Lemma forward_after_loop_Ok (objects : list (@Obj Geo))
  (more : list (list (@Obj Geo))) (point : Geo -> Code) (enc : encoder_t)
  (dec : decoder_t) (conf : Conf) (is_valdt : bool) (step : Q)
  (epoch batch_ind nb : nat) (log_console log_tb : bool)
  (tb_writer : option unit) (lr : LR) (acc : dict T) (cnt : nat) :
  (log_console = true -> nb * epochs conf <> 0) ->
  for_objects objects point enc dec init_losses 0 = Ok (acc, cnt) ->
  exists out,
    forward (objects :: more) ["object"] point enc dec conf is_valdt step
      epoch batch_ind nb log_console log_tb tb_writer lr = Ok out
    /\ apply_weights conf (divide_all acc cnt) = Ok (losses_out out)
    /\ total_loss out = sum_losses (losses_out out)
    /\ keys (losses_out out) = vocabulary.
Proof.
  intros Hrow Hrun.
  pose proof (forward_after_loop objects more point enc dec conf is_valdt
                step epoch batch_ind nb log_console log_tb tb_writer lr) as Hf.
  rewrite Hrun in Hf. destruct Hf as (d' & Hw & Hk & Hf).
  destruct log_console.
  - destruct (console_percent_Ok conf epoch batch_ind nb (Hrow eq_refl))
      as (p & Hp).
    rewrite Hp in Hf. destruct Hf as (out & Hout & <- & Ht).
    exists out; repeat split; assumption.
  - destruct Hf as (out & Hout & <- & Ht).
    exists out; repeat split; assumption.
Qed.

(** However the call ends, a result it returns holds the weighted terms. *)
Lemma forward_Ok_after_loop (objects : list (@Obj Geo))
  (more : list (list (@Obj Geo))) (point : Geo -> Code) (enc : encoder_t)
  (dec : decoder_t) (conf : Conf) (is_valdt : bool) (step : Q)
  (epoch batch_ind nb : nat) (log_console log_tb : bool)
  (tb_writer : option unit) (lr : LR) (out : ForwardOut) :
  forward (objects :: more) ["object"] point enc dec conf is_valdt step
    epoch batch_ind nb log_console log_tb tb_writer lr = Ok out ->
  exists acc cnt,
    for_objects objects point enc dec init_losses 0 = Ok (acc, cnt)
    /\ apply_weights conf (divide_all acc cnt) = Ok (losses_out out)
    /\ total_loss out = sum_losses (losses_out out)
    /\ keys (losses_out out) = vocabulary.
Proof.
  intros Hout.
  pose proof (forward_after_loop objects more point enc dec conf is_valdt
                step epoch batch_ind nb log_console log_tb tb_writer lr) as Hf.
  destruct (for_objects objects point enc dec init_losses 0) as [[acc cnt]|e];
    [|congruence].
  destruct Hf as (d' & Hw & Hk & Hf).
  destruct (if log_console then console_percent conf epoch batch_ind nb
            else Ok (S754_zero false)); [|congruence].
  destruct Hf as (out' & Hout' & Hl & Ht).
  assert (out' = out) by congruence; subst out'.
  exists acc, cnt; subst d'; repeat split; assumption.
Qed.

End AggregatorFacts.

(** ** The zero-node case and the normalisation by the visit count *)




(** C3: the count after the object loop is the number of nodes of all the
    objects' trees, threaded from whatever count the loop starts with; when
    the decoder reports vocabulary names only the loop returns, every slot is
    divided by that one count, and [forward] returns the weighted result
    (the console row, when asked for, needs [num_batch * conf.epochs] not to
    be zero for its progress column).  On
    the batch of tree A (three nodes of [geo] 1.0) and tree B (one node of
    [geo] 2.0) the count is 4 and the normalised [geo] is exactly 1.25. *)
Theorem visit_count_is_batch_node_count :
  (forall (T : Type) (HT : Tensor T) (Geo Code Latent : Type)
          (objects : list (@Obj Geo)) (point : Geo -> Code)
          (enc : @Encoder Geo Latent) (dec : @Decoder T Geo Code)
          (losses acc : dict T) (cnt cnt' : nat),
      for_objects objects point enc dec losses cnt = Ok (acc, cnt') ->
      cnt' = cnt + batch_size objects)
  /\ (forall (T : Type) (HT : Tensor T) (Geo Code Latent : Type)
             (objects : list (@Obj Geo)) (more : list (list (@Obj Geo)))
             (point : Geo -> Code) (enc : @Encoder Geo Latent)
             (dec : @Decoder T Geo Code) (conf : @Conf T) (is_valdt : bool)
             (step : Q) (epoch batch_ind nb : nat) (log_console log_tb : bool)
             (tb_writer : option unit) (lr : LR),
         Forall (fun n => Forall (fun k => In k vocabulary)
                            (node_keys point dec n)) (batch_nodes objects) ->
         (log_console = true -> nb * epochs conf <> 0) ->
         exists acc out,
           for_objects objects point enc dec init_losses 0
             = Ok (acc, batch_size objects)
           /\ normalize (keys acc) acc (batch_size objects)
                = Ok (divide_all acc (batch_size objects))
           /\ forward (objects :: more) ["object"] point enc dec conf is_valdt
                step epoch batch_ind nb log_console log_tb tb_writer lr
                = Ok out
           /\ apply_weights conf (divide_all acc (batch_size objects))
                = Ok (losses_out out))
  /\ (exists acc,
         for_objects ex_objects ex_point ex_encoder ex_decoder init_losses 0
           = Ok (acc, 4)
         /\ batch_size ex_objects = 4
         /\ (v <- getitem (divide_all acc 4) "geo" ;; Ok (f32_to_Q v))%py
              = Ok (Some (5 # 4)%Q)).
Proof.
  split; [|split].
  - intros T HT Geo Code Latent objects point enc dec losses acc cnt cnt' Hrun.
    pose proof (for_objects_spec point enc dec objects losses cnt) as Hs.
    rewrite Hrun in Hs; destruct Hs as (_ & -> & _); reflexivity.
  - intros T HT Geo Code Latent objects more point enc dec conf is_valdt step
      epoch batch_ind nb log_console log_tb tb_writer lr Hvoc Hrow.
    pose proof (for_objects_spec point enc dec objects init_losses 0) as Hs.
    destruct (for_objects objects point enc dec init_losses 0)
      as [[acc cnt]|e] eqn:Hrun.
    + destruct (forward_after_loop_Ok objects more point enc dec conf
                  is_valdt step epoch batch_ind nb log_console log_tb
                  tb_writer lr acc cnt Hrow Hrun) as (out & Hout & Hw & _).
      destruct Hs as (Hk & -> & _).
      exists acc, out; simpl; repeat split; try assumption.
      now apply normalize_vocabulary.
    + exfalso. destruct Hs as (k & n & _ & Hin & Hkin & Hn).
      rewrite Forall_forall in Hvoc. specialize (Hvoc n Hin).
      rewrite Forall_forall in Hvoc. now apply Hn, Hvoc.
  - eexists; split; [vm_compute; reflexivity | split; reflexivity].
Qed.

Lemma visit_count_witness :
  exists acc out,
    for_objects ex_objects ex_point ex_encoder ex_decoder init_losses 0
      = Ok (acc, batch_size ex_objects)
    /\ normalize (keys acc) acc (batch_size ex_objects)
         = Ok (divide_all acc (batch_size ex_objects))
    /\ forward [ex_objects] ["object"] ex_point ex_encoder ex_decoder ex_conf
         false (0 # 1)%Q 0 0 1 true true (Some tt) 0 = Ok out
    /\ apply_weights ex_conf (divide_all acc (batch_size ex_objects))
         = Ok (losses_out out).
Proof.
  apply (proj1 (proj2 visit_count_is_batch_node_count)).
  - cbv; repeat first [apply Forall_nil | apply Forall_cons]; tauto.
  - intros _; vm_compute; discriminate.
Defined.

(** ** Accumulation over a forest *)

Section Linearity.

Context {T : Type} `{Tensor T} {Geo Code Latent : Type}.

Local Abbreviation node := (@Node Geo).
Local Abbreviation decoder_t := (@Decoder T Geo Code).
Local Abbreviation encoder_t := (@Encoder Geo Latent).

(** Exact addition: associative, with [tzero] neutral on the right. *)
Hypothesis tadd_assoc : forall x y z : T, tadd x (tadd y z) = tadd (tadd x y) z.
Hypothesis tadd_0_r : forall x : T, tadd x tzero = x.








End Linearity.



(** ** The structure encoder's output and the accumulator's names *)

Section ForwardFacts.

Context {T : Type} `{Tensor T} {Geo Code Latent : Type}.

Local Abbreviation node := (@Node Geo).
Local Abbreviation decoder_t := (@Decoder T Geo Code).
Local Abbreviation encoder_t := (@Encoder Geo Latent).

Lemma for_objects_encoder_irrelevant (objects : list (@Obj Geo))
  (point : Geo -> Code) (enc1 enc2 : encoder_t) (dec : decoder_t) :
  forall losses cnt,
    for_objects objects point enc1 dec losses cnt
    = for_objects objects point enc2 dec losses cnt.
Proof.
  induction objects as [|o objects IH]; intros losses cnt; simpl;
    [reflexivity|].
  destruct (forward_one_obj (root o) point dec losses cnt) as [[l c]|e];
    simpl; [apply IH | reflexivity].
Qed.

(** C8: two runs of [forward] that differ only in the structure encoder,
    hence in the latent codes [encode_structure] returns, have the same
    outcome: the same total loss, the same per-term values and the same log
    rows, or the same exception. *)
Theorem forward_ignores_encode_structure (batch : list (list (@Obj Geo)))
  (data_features : list string) (point : Geo -> Code)
  (enc1 enc2 : encoder_t) (dec : decoder_t) (conf : Conf) (is_valdt : bool)
  (step : Q) (epoch batch_ind nb : nat) (log_console log_tb : bool)
  (tb_writer : option unit) (lr : LR) :
  forward batch data_features point enc1 dec conf is_valdt step epoch
    batch_ind nb log_console log_tb tb_writer lr
  = forward batch data_features point enc2 dec conf is_valdt step epoch
      batch_ind nb log_console log_tb tb_writer lr.
Proof.
  unfold forward.
  destruct (index data_features "object") as [i|e]; simpl; [|reflexivity].
  destruct (list_getitem batch i) as [objects|e]; simpl; [|reflexivity].
  now rewrite (for_objects_encoder_irrelevant objects point enc1 enc2).
Qed.

(** C10: the accumulator starts with exactly the ten names; a node or a tree
    that is accumulated without error leaves the names as they were; a name
    that the decoder reports and the accumulator lacks makes
    [forward_one_node] raise [KeyError] on a missing name; [forward] returns
    a dict with exactly the ten names, and raises [KeyError] on a name outside
    them when some node of the batch reports one. *)
Theorem accumulator_key_set_invariant :
  keys (init_losses (T := T)) = vocabulary
  /\ (forall (n : node) (point : Geo -> Code) (dec : decoder_t)
             (losses losses' : dict T),
         forward_one_node n point dec losses = Ok losses' ->
         keys losses' = keys losses)
  /\ (forall (n : node) (point : Geo -> Code) (dec : decoder_t)
             (losses losses' : dict T) (cnt cnt' : nat),
         forward_one_obj n point dec losses cnt = Ok (losses', cnt') ->
         keys losses' = keys losses)
  /\ (forall (n : node) (point : Geo -> Code) (dec : decoder_t)
             (losses : dict T) (name : string),
         In name (node_keys point dec n) -> ~ In name (keys losses) ->
         exists name',
           forward_one_node n point dec losses = Raise (KeyError name')
           /\ In name' (node_keys point dec n) /\ ~ In name' (keys losses))
  /\ (forall (objects : list (@Obj Geo)) (more : list (list (@Obj Geo)))
             (point : Geo -> Code) (enc : encoder_t) (dec : decoder_t)
             (conf : Conf) (is_valdt : bool) (step : Q)
             (epoch batch_ind nb : nat) (log_console log_tb : bool)
             (tb_writer : option unit) (lr : LR) (out : ForwardOut),
         forward (objects :: more) ["object"] point enc dec conf is_valdt
           step epoch batch_ind nb log_console log_tb tb_writer lr = Ok out ->
         keys (losses_out out) = vocabulary)
  /\ (forall (objects : list (@Obj Geo)) (more : list (list (@Obj Geo)))
             (point : Geo -> Code) (enc : encoder_t) (dec : decoder_t)
             (conf : Conf) (is_valdt : bool) (step : Q)
             (epoch batch_ind nb : nat) (log_console log_tb : bool)
             (tb_writer : option unit) (lr : LR) (n : node) (name : string),
         In n (batch_nodes objects) -> In name (node_keys point dec n) ->
         ~ In name vocabulary ->
         exists name',
           forward (objects :: more) ["object"] point enc dec conf is_valdt
             step epoch batch_ind nb log_console log_tb tb_writer lr
             = Raise (KeyError name')
           /\ ~ In name' vocabulary).
Proof.
  split; [reflexivity|]. split; [|split; [|split; [|split]]].
  - intros n point dec losses losses' Hrun. unfold forward_one_node in Hrun.
    pose proof (accumulate_spec
                  (items (node_recon_loss dec (point (norm_geo n)) n)) losses)
      as Hs.
    rewrite Hrun in Hs; tauto.
  - intros n point dec losses losses' cnt cnt' Hrun.
    pose proof (forward_one_obj_spec point dec n losses cnt) as Hs.
    rewrite Hrun in Hs; destruct Hs as (Hk & _); exact Hk.
  - intros n point dec losses name Hin Hn. unfold forward_one_node.
    pose proof (accumulate_spec
                  (items (node_recon_loss dec (point (norm_geo n)) n)) losses)
      as Hs.
    destruct (accumulate _ losses) as [l|e].
    + exfalso. destruct Hs as [_ Hall]. rewrite Forall_forall in Hall.
      apply Hn, Hall. exact Hin.
    + destruct Hs as (k & -> & Hkin & Hkn). exists k; repeat split; assumption.
  - intros objects more point enc dec conf is_valdt step epoch batch_ind nb
      log_console log_tb tb_writer lr out Hrun.
    destruct (forward_Ok_after_loop objects more point enc dec conf is_valdt
                step epoch batch_ind nb log_console log_tb tb_writer lr out
                Hrun) as (acc & cnt & _ & _ & _ & Hk).
    exact Hk.
  - intros objects more point enc dec conf is_valdt step epoch batch_ind nb
      log_console log_tb tb_writer lr n name Hin Hkin Hn.
    pose proof (forward_after_loop objects more point enc dec conf is_valdt
                  step epoch batch_ind nb log_console log_tb tb_writer lr)
      as Hf.
    pose proof (for_objects_spec point enc dec objects init_losses 0) as Hs.
    destruct (for_objects objects point enc dec init_losses 0)
      as [[acc cnt]|e].
    + exfalso. destruct Hs as (_ & _ & Hall). rewrite Forall_forall in Hall.
      specialize (Hall n Hin). rewrite Forall_forall in Hall.
      apply Hn. exact (Hall name Hkin).
    + destruct Hs as (k & n' & -> & _ & _ & Hkn). exists k; split; assumption.
Qed.

End ForwardFacts.

Lemma accumulator_key_set_witness :
  exists name',
    forward [[ {| root := ex_tree_A |} ]] ["object"] ex_point ex_encoder
      ex_decoder_foreign ex_conf false (0 # 1)%Q 0 0 1 true true (Some tt) 0
    = Raise (KeyError name')
    /\ ~ In name' vocabulary.
Proof.
  apply (proj2 (proj2 (proj2 (proj2 (proj2
           (accumulator_key_set_invariant (T := f32) (Geo := Z) (Code := Z)
              (Latent := nat))))))
         [ {| root := ex_tree_A |} ] [] ex_point ex_encoder ex_decoder_foreign
         ex_conf false (0 # 1)%Q 0 0 1 true true (Some tt) 0
         ex_tree_A "kldiv").
  - left; reflexivity.
  - right; left; reflexivity.
  - cbv; intuition discriminate.
Defined.

(** ** The orchestrator *)

Section TrainFacts.

Context {T : Type} `{Tensor T} {Geo Code Latent : Type}.

Local Abbreviation external_t := (@External T Geo Code Latent).
Local Abbreviation conf_t := (@Conf T).
Local Abbreviation event_t := (@Event T).

Lemma bind_Ok_inv {A B : Type} (m : M (T := T) A) (f : A -> M (T := T) B)
  (w w' : World) (b : B) (tr : list event_t) :
  bind m f w = (Ok b, w', tr) ->
  exists a w1 t1 t2,
    m w = (Ok a, w1, t1) /\ f a w1 = (Ok b, w', t2) /\ tr = t1 ++ t2.
Proof.
  unfold bind. destruct (m w) as [[[a|e] w1] t1]; [|discriminate].
  destruct (f a w1) as [[r w2] t2] eqn:Hf. intros [= -> -> <-].
  now exists a, w1, t1, t2.
Qed.

(** C9: when the log directory or the model directory of the run exists,
    [train] prompts, and on an answer other than exactly [y] it ends with
    [SystemExit] after the prompt alone: no directory was removed or created
    and both directories exist or not as before. *)
Theorem refused_overwrite_exits_before_any_mutation (ext : external_t)
  (conf : conf_t) (w : World) (response : string) (rest : list string) :
  log_dir_exists w || model_dir_exists w = true ->
  stdin w = response :: rest ->
  response <> "y" ->
  train ext conf w = (Raise SystemExit, set_stdin rest w, [EvInput])
  /\ log_dir_exists (set_stdin rest w) = log_dir_exists w
  /\ model_dir_exists (set_stdin rest w) = model_dir_exists w.
Proof.
  intros Hex Hin Hne. split; [|split; reflexivity].
  unfold train, prepare_run_dirs, bind at 1 2 3. cbn [get dir_exists].
  rewrite Hex. unfold input, bind, get. rewrite Hin. cbn.
  apply String.eqb_neq in Hne. rewrite Hne. reflexivity.
Qed.

(** What [init_run] does, in full. *)
Lemma init_run_eq (conf : conf_t) (w : World) :
  init_run conf w =
  if stage2_loads w
  then (Ok ([CEncoder; CDecoder], ["encoder"; "decoder"],
            {| opt_params := CEncoder |},
            if no_tb_log conf then None else Some tt),
        {| log_dir_exists := log_dir_exists w;
           model_dir_exists := model_dir_exists w;
           stdin := stdin w; randint := randint w;
           stage2_loads := stage2_loads w;
           encoder_net := {| training := false; requires_grad := false |};
           decoder_net := {| training := false; requires_grad := false |};
           pointencoder_net := {| training := true; requires_grad := true |};
           sched_steps := 0 |},
        [ EvOpenLog;
          EvSeed (if (seed conf <? 0)%Z then randint w else seed conf);
          EvSaveConf;
          EvLoadCheckpoint [CEncoder; CDecoder] ["encoder"; "decoder"]
            (stage_2_epoch conf) true;
          EvAdam CEncoder; EvStepLR ]
        ++ (if no_tb_log conf then []
            else [EvSummaryWriter false; EvSummaryWriter true]))
  else (Raise CheckpointError,
        {| log_dir_exists := log_dir_exists w;
           model_dir_exists := model_dir_exists w;
           stdin := stdin w; randint := randint w;
           stage2_loads := stage2_loads w;
           encoder_net := {| training := true; requires_grad := true |};
           decoder_net := {| training := true; requires_grad := true |};
           pointencoder_net := {| training := true; requires_grad := true |};
           sched_steps := sched_steps w |},
        [ EvOpenLog;
          EvSeed (if (seed conf <? 0)%Z then randint w else seed conf);
          EvSaveConf ]).
Proof.
  destruct w as [ld md si ri s2 en de pe ss]; unfold init_run; cbn.
  destruct s2; cbn; [|reflexivity].
  destruct (no_tb_log conf); reflexivity.
Qed.

(** C2 (what the code does): when the stage-2 checkpoint loads, the set-up
    freezes the structure encoder and decoder (evaluation mode, no gradient)
    and leaves the point encoder trainable, but the one optimizer it builds,
    [point_opt], is constructed over the parameters of the structure encoder:
    no optimizer is constructed over the point encoder's parameters. *)
Theorem optimizer_is_built_over_structure_encoder (conf : conf_t) (w : World) :
  stage2_loads w = true ->
  exists writer w' tr,
    init_run conf w
    = (Ok ([CEncoder; CDecoder], ["encoder"; "decoder"],
           {| opt_params := CEncoder |}, writer), w', tr)
    /\ In (EvAdam CEncoder) tr
    /\ ~ In (EvAdam CPointEncoder) tr
    /\ encoder_net w' = {| training := false; requires_grad := false |}
    /\ decoder_net w' = {| training := false; requires_grad := false |}
    /\ pointencoder_net w' = {| training := true; requires_grad := true |}.
Proof.
  intros Hload. rewrite init_run_eq, Hload.
  do 3 eexists; split; [reflexivity|].
  split; [simpl; tauto|]. split; [|repeat split].
  destruct (no_tb_log conf); simpl; intuition discriminate.
Qed.

Lemma last_default_irrelevant {A : Type} (l : list A) (a d d' : A) :
  List.last (a :: l) d = List.last (a :: l) d'.
Proof.
  revert a; induction l as [|b l IH]; intros a; [reflexivity|].
  change (List.last (b :: l) d = List.last (b :: l) d'). apply IH.
Qed.

Lemma for_epochs_last (ext : external_t) (conf : conf_t)
  (models : list Component) (opt : Optimizer) (tw vw : option unit)
  (range : list nat) :
  forall last l w r w' tr,
    for_epochs ext conf models opt tw vw range last l w = (Ok r, w', tr) ->
    r = List.last (map Some range) last.
Proof.
  induction range as [|e range IH]; intros last l w r w' tr Hrun.
  - simpl in Hrun. injection Hrun as <- _ _. reflexivity.
  - cbn [for_epochs] in Hrun.
    apply bind_Ok_inv in Hrun as (l1 & w1 & t1 & t2 & _ & Hrest & _).
    apply IH in Hrest. rewrite Hrest.
    destruct range as [|n range]; [reflexivity|].
    change (List.last (map Some (n :: range)) (Some e)
            = List.last (map Some (n :: range)) last).
    apply last_default_irrelevant.
Qed.

(** C4 (what the code does): a run of [train] that completes ends with the
    final checkpoint followed by the closing of the log; the checkpoint is
    taken after the last epoch, without epoch prefix, of the models
    [encoder] and [decoder] and of the optimizer [point_opt] under the name
    [pointencoder]: the point encoder's weights are not among the models. *)
Theorem final_checkpoint_saves_encoder_and_decoder (ext : external_t)
  (conf : conf_t) (w w' : World) (tr : list event_t) :
  train ext conf w = (Ok tt, w', tr) ->
  exists pre epoch,
    epochs conf = S epoch
    /\ tr = pre ++ [ EvSaveCheckpoint [CEncoder; CDecoder]
                       ["encoder"; "decoder"] epoch false
                       [{| opt_params := CEncoder |}] ["pointencoder"];
                     EvCloseLog ].
Proof.
  unfold train; intros Hrun.
  apply bind_Ok_inv in Hrun as (u & w1 & t1 & t2 & _ & Hrun & ->).
  apply bind_Ok_inv in Hrun as (setup & w2 & t3 & t4 & Hinit & Hrun & ->).
  rewrite init_run_eq in Hinit. destruct (stage2_loads w1); [|discriminate].
  injection Hinit as <- _ _.
  apply bind_Ok_inv in Hrun as (last & w3 & t5 & t6 & Hloop & Hfin & ->).
  apply for_epochs_last in Hloop.
  destruct last as [epoch|]; [|discriminate].
  injection Hfin as _ <-.
  exists (t1 ++ t3 ++ t5), epoch. split.
  - destruct (epochs conf) as [|n]; [discriminate|].
    rewrite seq_S, map_app in Hloop.
    change (map Some [0 + n]) with [Some n] in Hloop.
    rewrite last_last in Hloop. now injection Hloop as <-.
  - now rewrite <- !app_assoc.
Qed.

(** *** One training step *)

Lemma call_forward_eq (ext : external_t) (conf : conf_t) (is_valdt : bool)
  (step : Q) (epoch ind nb : nat) (lc : bool) (writer : option unit)
  (name : string) (batch : list (list (@Obj Geo))) (w : World) :
  call_forward ext conf is_valdt step epoch ind nb lc writer name batch w =
  match writer with
  | None => (Raise (UnboundLocalError name), w, [])
  | Some wr =>
      (forward batch ["object"]
         (ext_pointencoder ext (training (pointencoder_net w)))
         (ext_encoder ext) (ext_decoder ext) conf is_valdt step epoch ind nb
         lc (negb (no_tb_log conf)) (Some wr) (sched_steps w),
       w, [EvForward is_valdt epoch ind])
  end.
Proof. destruct writer; reflexivity. Qed.

Lemma train_one_batch_eq (ext : external_t) (conf : conf_t) (opt : Optimizer)
  (tw : option unit) (epoch nb ind : nat) (batch : list (list (@Obj Geo)))
  (l : Locals) (w : World) :
  train_one_batch ext conf opt tw epoch nb ind batch l w =
  match nb, tw with
  | 0, _ => (Raise ZeroDivisionError, w, [])
  | S _, None => (Raise (UnboundLocalError "train_writer"), w, [])
  | S _, Some wr =>
      let train_step := train_step_of epoch nb ind in
      match forward batch ["object"]
              (ext_pointencoder ext (training (pointencoder_net w)))
              (ext_encoder ext) (ext_decoder ext) conf false
              (inject_Z train_step) epoch ind nb
              (train_log_console conf l train_step)
              (negb (no_tb_log conf)) (Some wr) (sched_steps w) with
      | Raise e => (Raise e, w, [EvForward false epoch ind])
      | Ok out =>
          (Ok {| last_checkpoint_step :=
                   if checkpoint_due conf l train_step then Some train_step
                   else last_checkpoint_step l;
                 last_train_console_log_step :=
                   if train_log_console conf l train_step
                   then Some train_step
                   else last_train_console_log_step l;
                 last_valdt_console_log_step := last_valdt_console_log_step l;
                 train_fraction_done :=
                   f64_quot (Z.of_nat (ind + 1)) (Z.of_nat nb);
                 valdt_fraction_done := valdt_fraction_done l;
                 valdt_batch_ind := valdt_batch_ind l |},
           set_sched_steps (S (sched_steps w)) w,
           step_events opt epoch ind (total_loss out)
             (checkpoint_due conf l train_step))
      end
  end.
Proof.
  unfold train_one_batch. destruct nb as [|nb]; [reflexivity|].
  unfold bind at 1. cbn [lift true_div].
  unfold bind at 1. rewrite call_forward_eq.
  destruct tw as [wr|]; [|reflexivity].
  destruct (forward _ _ _ _ _ _ _ _ _ _ _ _ _ _ _) as [out|e]; [|reflexivity].
  unfold step_events.
  destruct (checkpoint_due conf l (train_step_of epoch (S nb) ind));
    reflexivity.
Qed.

(** *** The validation loop *)

Lemma for_each_eval (models : list Component) (w : World) :
  for_each models eval w = (Ok tt, eval_all models w, @nil event_t).
Proof.
  revert w; induction models as [|c models IH]; intros w; [reflexivity|].
  cbn [for_each]. unfold bind at 1. cbn. rewrite IH. reflexivity.
Qed.

(** One turn of the validation loop on a non-empty iterator. *)
Lemma valdt_loop_cons (ext : external_t) (conf : conf_t)
  (models : list Component) (vw : option unit) (epoch nt nv ind : nat)
  (batch : list (list (@Obj Geo)))
  (rest : list (nat * list (list (@Obj Geo)))) (l : Locals) (w : World) :
  f64_leb (valdt_fraction_done l) (train_fraction_done l)
  && (valdt_batch_ind l + 1 <? Z.of_nat nv)%Z = true ->
  nv <> 0 ->
  exists l',
    valdt_batch_ind l' = Z.of_nat ind
    /\ valdt_fraction_done l' = f64_quot (Z.of_nat (ind + 1)) (Z.of_nat nv)
    /\ train_fraction_done l' = train_fraction_done l
    /\ valdt_loop ext conf models vw epoch nt nv ((ind, batch) :: rest) l w =
       let w1 := set_eval CPointEncoder (eval_all models w) in
       let valdt_step :=
         valdt_step_of epoch nt
           (f64_quot (Z.of_nat (ind + 1)) (Z.of_nat nv)) in
       match vw with
       | None => (Raise (UnboundLocalError "valdt_writer"), w1, [])
       | Some wr =>
           match call_forward ext conf true (f64_exact valdt_step)
                   epoch ind nv
                   (negb (no_console_log conf)
                    && match last_valdt_console_log_step l with
                       | None => true
                       | Some last =>
                           f64_ge_int (f64_sub valdt_step last)
                             (console_log_interval conf)
                       end)
                   (Some wr) "valdt_writer" batch w1 with
           | (Raise e, _, _) => (Raise e, w1, [EvForward true epoch ind])
           | (Ok _, _, _) =>
               match valdt_loop ext conf models vw epoch nt nv rest l' w1 with
               | (r, w2, t2) => (r, w2, EvForward true epoch ind :: t2)
               end
           end
       end.
Proof.
  intros Hguard Hnv. destruct nv as [|nv]; [congruence|].
  set (fraction := f64_quot (Z.of_nat (ind + 1)) (Z.of_nat (S nv))).
  set (valdt_step := valdt_step_of epoch nt fraction).
  set (lc := negb (no_console_log conf)
             && match last_valdt_console_log_step l with
                | None => true
                | Some last =>
                    f64_ge_int (f64_sub valdt_step last)
                      (console_log_interval conf)
                end).
  exists {| last_checkpoint_step := last_checkpoint_step l;
            last_train_console_log_step := last_train_console_log_step l;
            last_valdt_console_log_step :=
              if lc then Some valdt_step else last_valdt_console_log_step l;
            train_fraction_done := train_fraction_done l;
            valdt_fraction_done := fraction;
            valdt_batch_ind := Z.of_nat ind |}.
  split; [reflexivity|]. split; [reflexivity|]. split; [reflexivity|].
  cbn [valdt_loop]. rewrite Hguard.
  unfold bind at 1. cbn [lift true_div].
  unfold bind at 1. rewrite for_each_eval.
  unfold bind at 1. cbn [eval bind get put].
  unfold bind at 1. cbv zeta.
  destruct vw as [wr|]; [|reflexivity].
  rewrite !call_forward_eq.
  destruct (forward _ _ _ _ _ _ _ _ _ _ _ _ _ _ _) as [out|e];
    [|reflexivity].
  destruct (valdt_loop _ _ _ _ _ _ _ _ _ _) as [[r w2] t2]. reflexivity.
Qed.

(** *** Progress fractions *)

(** A rounded quotient of non-negative integers is not below zero (and is
    not NaN). *)
Lemma shr_1_nonneg (mrs : shr_record) :
  (0 <= shr_m mrs)%Z -> (0 <= shr_m (shr_1 mrs))%Z.
Proof.
  destruct mrs as [m r s]; cbn [shr_m]; intros Hm.
  destruct m as [|[p|p|]|p]; cbn; lia.
Qed.

Lemma iter_shr_1_nonneg (p : positive) :
  forall mrs, (0 <= shr_m mrs)%Z -> (0 <= shr_m (iter_pos shr_1 p mrs))%Z.
Proof.
  induction p as [p IH|p IH|]; intros mrs Hm; cbn [iter_pos].
  - apply IH, IH, shr_1_nonneg, Hm.
  - apply IH, IH, Hm.
  - apply shr_1_nonneg, Hm.
Qed.

Lemma shr_fexp_nonneg (prec emax m e : Z) (l : location) :
  (0 <= m)%Z -> (0 <= shr_m (fst (shr_fexp prec emax m e l)))%Z.
Proof.
  intros Hm. unfold shr_fexp, shr.
  assert (H0 : (0 <= shr_m (shr_record_of_loc m l))%Z)
    by (destruct l as [|[ | | ]]; exact Hm).
  destruct (fexp prec emax (Zdigits2 m + e) - e)%Z as [|p|p]; cbn [fst];
    [exact H0 | now apply iter_shr_1_nonneg | exact H0].
Qed.

Lemma round_nearest_even_nonneg (m : Z) (l : location) :
  (0 <= m)%Z -> (0 <= round_nearest_even m l)%Z.
Proof.
  intros Hm. destruct l as [|[ | | ]]; cbn; try lia.
  destruct (Z.even m); lia.
Qed.

Lemma binary_round_aux_nonneg (prec emax m e : Z) (l : location) :
  (0 <= m)%Z ->
  SFleb (S754_zero false) (binary_round_aux prec emax false m e l) = true.
Proof.
  intros Hm. unfold binary_round_aux.
  pose proof (shr_fexp_nonneg prec emax m e l Hm) as H1.
  destruct (shr_fexp prec emax m e l) as [mrs' e']. cbn [fst] in H1.
  pose proof (shr_fexp_nonneg prec emax
                (round_nearest_even (shr_m mrs') (loc_of_shr_record mrs')) e'
                loc_Exact (round_nearest_even_nonneg _ _ H1)) as H2.
  destruct (shr_fexp prec emax _ e' loc_Exact) as [mrs'' e''].
  cbn [fst] in H2.
  destruct (shr_m mrs'') as [|p|p]; [reflexivity | | lia].
  destruct (e'' <=? emax - prec)%Z; reflexivity.
Qed.

Lemma f64_quot_nonneg (a b : Z) :
  (0 < b)%Z -> f64_leb (S754_zero false) (f64_quot a b) = true.
Proof.
  intros Hb. unfold f64_quot, f64_leb.
  destruct a as [|a|a]; [reflexivity| |reflexivity].
  unfold SFdiv_core_binary.
  set (m' := match _ with Z0 => Z.pos a | Zpos _ => _ | Zneg _ => 0%Z end).
  assert (Hm' : (0 <= m')%Z).
  { unfold m'. destruct (_ - _ - _)%Z; [lia | | lia].
    apply Z.shiftl_nonneg. lia. }
  pose proof (Z.div_pos m' b Hm' Hb) as Hq.
  unfold Z.div in Hq. destruct (Z.div_eucl m' b) as [q r]. cbn [fst] in Hq.
  now apply binary_round_aux_nonneg.
Qed.


Lemma Zpos_of_nat (n : nat) : 1 <= n -> Z.pos (Pos.of_nat n) = Z.of_nat n.
Proof.
  intros Hn. destruct n as [|n]; [lia|].
  rewrite <- Pos.of_nat_succ, Zpos_P_of_succ_nat. lia.
Qed.

Lemma one_ahead_of_nat (nt nv n m : nat) :
  1 <= nt -> m <= nv -> m * nt <= n * nv + nt ->
  at_most_one_ahead nt nv n m.
Proof.
  intros Ht Hm Hle. unfold at_most_one_ahead, Qle, Qplus; cbn [Qnum Qden].
  rewrite Pos2Z.inj_mul, (Zpos_of_nat nt Ht).
  destruct nv as [|nv].
  - assert (m = 0) as -> by lia. change (Pos.of_nat 0) with 1%positive. nia.
  - rewrite (Zpos_of_nat (S nv)) by lia. nia.
Qed.

Lemma one_ahead_to_nat (nt nv n m : nat) :
  1 <= nt -> 1 <= nv -> at_most_one_ahead nt nv n m ->
  m * nt <= n * nv + nt.
Proof.
  intros Ht Hv. unfold at_most_one_ahead, Qle, Qplus; cbn [Qnum Qden].
  rewrite Pos2Z.inj_mul, (Zpos_of_nat nt Ht), (Zpos_of_nat nv Hv).
  intros Hle. nia.
Qed.

(** The console row of a call from [train] has its progress column: the
    loaders are not empty and the epoch is one of the run's. *)
Lemma row_is_defined (conf : conf_t) (nb : nat) (rest : bool) :
  (no_console_log conf = false -> 1 <= epochs conf) -> 1 <= nb ->
  negb (no_console_log conf) && rest = true -> nb * epochs conf <> 0.
Proof.
  intros Hep Hnb Hlc. apply andb_prop in Hlc as [Hlc _].
  apply negb_true_iff in Hlc. specialize (Hep Hlc). nia.
Qed.

Lemma forward_total (batch : list (list (@Obj Geo))) (point : Geo -> Code)
  (enc : @Encoder Geo Latent) (dec : @Decoder T Geo Code) (conf : conf_t)
  (is_valdt : bool) (step : Q) (epoch ind nb : nat) (lc lt : bool)
  (tw : option unit) (lr : LR) :
  decoder_in_vocabulary dec -> batch <> [] ->
  (lc = true -> nb * epochs conf <> 0) ->
  exists out,
    forward batch ["object"] point enc dec conf is_valdt step epoch ind nb lc
      lt tw lr = Ok out.
Proof.
  intros Hdec Hb Hrow. destruct batch as [|objects more]; [congruence|].
  pose proof (for_objects_spec point enc dec objects init_losses 0) as Hs.
  destruct (for_objects objects point enc dec init_losses 0)
    as [[acc cnt]|e] eqn:Hrun.
  - destruct (forward_after_loop_Ok objects more point enc dec conf is_valdt
                step epoch ind nb lc lt tw lr acc cnt Hrow Hrun)
      as (out & Hout & _); now exists out.
  - exfalso. destruct Hs as (k & n & _ & _ & Hkin & Hn).
    specialize (Hdec (point (norm_geo n)) n). rewrite Forall_forall in Hdec.
    apply Hn. exact (Hdec k Hkin).
Qed.

(** The validation loop, started with [j] validation batches consumed: it
    pulls the next [p] batches in order and leaves the fraction of the
    batches consumed in its local.  Where the guard is exact, and [ct]
    training batches are consumed, each batch is pulled when validation was
    not ahead, and the loop stops when validation is ahead or exhausted. *)
Lemma valdt_loop_spec (ext : external_t) (conf : conf_t)
  (models : list Component) (vw : option unit) (epoch nt nv ct : nat)
  (f : nat -> list (list (@Obj Geo))) :
  forall k j l w,
    j + k = nv ->
    valdt_batch_ind l = (Z.of_nat j - 1)%Z ->
    valdt_fraction_done l = f64_quot (Z.of_nat j) (Z.of_nat nv) ->
    match valdt_loop ext conf models vw epoch nt nv
            (map (fun i => (i, f i)) (seq j k)) l w with
    | (r, w', tr) =>
        exists p,
          p <= k
          /\ tr = map (EvForward true epoch) (seq j p)
          /\ (vw <> None -> (forall i, f i <> []) ->
              decoder_in_vocabulary (ext_decoder ext) ->
              (no_console_log conf = false -> 1 <= epochs conf) ->
              is_ok r = true)
          /\ match r with
             | Ok (l', vb') =>
                 vb' = map (fun i => (i, f i)) (seq (j + p) (k - p))
                 /\ valdt_batch_ind l' = (Z.of_nat (j + p) - 1)%Z
                 /\ valdt_fraction_done l'
                    = f64_quot (Z.of_nat (j + p)) (Z.of_nat nv)
                 /\ train_fraction_done l' = train_fraction_done l
             | Raise e => True
             end
          /\ (guard_is_exact nt nv -> 1 <= ct <= nt ->
              train_fraction_done l = f64_quot (Z.of_nat ct) (Z.of_nat nt) ->
              progress_ok nt nv ct j tr
              /\ (p = 0 \/ (j + p) * nt <= ct * nv + nt)
              /\ (is_ok r = true -> p = k \/ ~ (j + p) * nt <= ct * nv))
          /\ (f64_leb (valdt_fraction_done l) (train_fraction_done l) = true ->
              1 <= k -> is_ok r = true -> 1 <= p)
    end.
Proof.
  induction k as [|k IH]; intros j l w Hjk Hind Hvf.
  - (* the iterator is exhausted: the guard fails on its second test *)
    cbn [seq map valdt_loop].
    replace (valdt_batch_ind l + 1 <? Z.of_nat nv)%Z with false
      by (symmetry; apply Z.ltb_ge; lia).
    rewrite andb_false_r. exists 0. rewrite Nat.add_0_r.
    repeat split; auto; try reflexivity.
  - cbn [seq map].
    destruct (f64_leb (valdt_fraction_done l) (train_fraction_done l)
              && (valdt_batch_ind l + 1 <? Z.of_nat nv)%Z) eqn:Hguard.
    + (* one more validation batch is due *)
      destruct (valdt_loop_cons ext conf models vw epoch nt nv j (f j)
                  (map (fun i => (i, f i)) (seq (S j) k)) l w Hguard)
        as (l' & Hind' & Hvf' & Htf' & ->); [lia|].
      cbv zeta. destruct vw as [wr|].
      2:{ exists 0. rewrite Nat.add_0_r.
          split; [lia|]. split; [reflexivity|].
          split; [intros Hvw; congruence|]. split; [exact I|].
          split; [|discriminate].
          intros _ _ _. split; [exact I|]. split; [now left|].
          discriminate. }
      rewrite call_forward_eq.
      assert (Hexact : guard_is_exact nt nv -> 1 <= ct <= nt ->
                       train_fraction_done l
                       = f64_quot (Z.of_nat ct) (Z.of_nat nt) ->
                       j * nt <= ct * nv).
      { intros Hex Hct Htf. apply andb_prop in Hguard as [Hq _].
        rewrite Hvf, Htf in Hq. apply (Hex j ct); [lia | exact Hct | exact Hq]. }
      destruct (forward _ _ _ _ _ _ _ _ _ _ _ _ _ _ _) as [out|e] eqn:Hfw.
      * specialize (IH (S j) l' (set_eval CPointEncoder (eval_all models w))).
        destruct (valdt_loop ext conf models (Some wr) epoch nt nv
                    (map (fun i => (i, f i)) (seq (S j) k)) l'
                    (set_eval CPointEncoder (eval_all models w)))
          as [[r w2] t2].
        destruct IH as (p & Hp & -> & Hlive & Hpost & Hcond & _).
        { lia. }
        { rewrite Hind'. lia. }
        { rewrite Hvf'. replace (j + 1) with (S j) by lia. reflexivity. }
        exists (S p). split; [lia|]. split; [reflexivity|].
        split; [exact Hlive|].
        split.
        { destruct r as [[l2 vb2]|e2]; [|exact I].
          destruct Hpost as (-> & Hi2 & Hv2 & Ht2).
          replace (j + S p) with (S j + p) by lia. cbn [Nat.sub].
          repeat split; try assumption. rewrite Ht2. exact Htf'. }
        split; [|intros _ _ _; lia].
        intros Hex Hct Htf. specialize (Hexact Hex Hct Htf).
        destruct Hcond as (Hprog & Hdue & Hstop);
          [exact Hex | exact Hct | now rewrite Htf' |].
        split.
        { cbn. split; [|exact Hprog].
          apply one_ahead_of_nat; [lia | lia | lia]. }
        split; [right; destruct Hdue as [->|Hdue]; lia|].
        intros Hok. replace (j + S p) with (S j + p) by lia.
        destruct (Hstop Hok) as [->|Hno]; [now left | now right].
      * exists 1. split; [lia|]. split; [reflexivity|].
        split.
        { intros _ Hf Hdec Hep. exfalso.
          match type of Hfw with
          | forward ?b _ ?pt ?en ?de ?c ?v ?st ?ep ?i ?n ?lc ?lt ?tw ?lr = _ =>
              destruct (forward_total b pt en de c v st ep i n lc lt tw lr
                          Hdec (Hf j)) as (out & Hout);
                [apply row_is_defined; [exact Hep | lia]
                |rewrite Hout in Hfw; discriminate]
          end. }
        split; [exact I|].
        split; [|intros _ _ _; lia].
        intros Hex Hct Htf. specialize (Hexact Hex Hct Htf).
        split.
        { cbn. split; [|exact I].
          apply one_ahead_of_nat; [lia | lia | lia]. }
        split; [right; lia | discriminate].
    + (* validation is ahead of training, or exhausted: the loop stops *)
      cbn [valdt_loop]. rewrite Hguard.
      exists 0. rewrite Nat.add_0_r. cbn [map seq Nat.sub].
      split; [lia|]. split; [reflexivity|]. split; [reflexivity|].
      split; [repeat split; auto|].
      split.
      * intros Hex Hct Htf. split; [exact I|]. split; [now left|].
        intros _. right. intros Hle.
        apply andb_false_iff in Hguard as [Hq|Hlt].
        -- apply (Hex j ct) in Hle; [|lia|exact Hct].
           rewrite <- Hvf, <- Htf in Hle. congruence.
        -- apply Z.ltb_ge in Hlt. lia.
      * intros Hq _ _.
        apply andb_false_iff in Hguard as [Hq'|Hlt]; [congruence|].
        apply Z.ltb_ge in Hlt. lia.
Qed.

(** *** Reading the trace of a loop *)

Lemma valdt_visited_app (t1 t2 : list event_t) :
  valdt_visited (t1 ++ t2) = valdt_visited t1 ++ valdt_visited t2.
Proof.
  induction t1 as [|ev t1 IH]; [reflexivity|].
  destruct ev as [| | | | | | | | | |[|] e i| | | | | |]; cbn;
    now rewrite IH.
Qed.

Lemma train_count_app (t1 t2 : list event_t) :
  train_count (t1 ++ t2) = train_count t1 + train_count t2.
Proof.
  induction t1 as [|ev t1 IH]; [reflexivity|].
  destruct ev as [| | | | | | | | | |[|] e i| | | | | |]; cbn;
    now rewrite IH.
Qed.

Lemma progress_ok_app (nt nv : nat) (t1 t2 : list event_t) :
  forall n m,
    progress_ok nt nv n m t1 ->
    progress_ok nt nv (n + train_count t1)
      (m + List.length (valdt_visited t1)) t2 ->
    progress_ok nt nv n m (t1 ++ t2).
Proof.
  induction t1 as [|ev t1 IH]; intros n m H1 H2.
  - cbn in H2. now rewrite !Nat.add_0_r in H2.
  - destruct ev as [| | | | | | | | | |[|] e i| | | | | |]; cbn in *;
      try (apply IH; assumption).
    + destruct H1 as [Ha H1]. split; [exact Ha|]. apply IH; [exact H1|].
      now rewrite <- Nat.add_succ_comm in H2.
    + destruct H1 as [Ha H1]. split; [exact Ha|]. apply IH; [exact H1|].
      now rewrite <- Nat.add_succ_comm in H2.
Qed.

Lemma valdt_visited_pulls (epoch j p : nat) :
  valdt_visited (map (@EvForward T true epoch) (seq j p)) = seq j p.
Proof.
  revert j; induction p as [|p IH]; intros j; [reflexivity|].
  cbn. now rewrite IH.
Qed.

Lemma train_count_pulls (epoch j p : nat) :
  train_count (map (@EvForward T true epoch) (seq j p)) = 0.
Proof.
  revert j; induction p as [|p IH]; intros j; [reflexivity|]. cbn. apply IH.
Qed.

Lemma updates_in_order_app (t1 t2 : list event_t) :
  updates_in_order t1 -> updates_in_order t2 -> updates_in_order (t1 ++ t2).
Proof.
  intros H1 H2; induction H1 as [|e i loss tr _ IH|ev tr Hev _ IH].
  - exact H2.
  - cbn. now apply in_order_step.
  - cbn. now apply in_order_other.
Qed.

Lemma updates_in_order_pulls (epoch j p : nat) :
  updates_in_order (map (@EvForward T true epoch) (seq j p)).
Proof.
  revert j; induction p as [|p IH]; intros j; [constructor|].
  cbn. apply in_order_other; [reflexivity | apply IH].
Qed.

Lemma updates_in_order_step (opt : Optimizer) (epoch ind : nat) (loss : T)
  (save : bool) :
  updates_in_order (step_events opt epoch ind loss save).
Proof.
  unfold step_events; cbn. apply in_order_step.
  destruct save; [apply in_order_other; [reflexivity|] |]; constructor.
Qed.

(** *** The batch loop of one epoch *)

(** The loop over the training batches, entered with [i] training batches
    and [j] validation batches consumed. *)
Lemma for_train_batches_spec (ext : external_t) (conf : conf_t)
  (models : list Component) (opt : Optimizer) (tw vw : option unit)
  (epoch nt nv : nat) (g f : nat -> list (list (@Obj Geo))) :
  forall k i j l w,
    i + k = nt -> j <= nv ->
    valdt_batch_ind l = (Z.of_nat j - 1)%Z ->
    valdt_fraction_done l = f64_quot (Z.of_nat j) (Z.of_nat nv) ->
    match for_train_batches ext conf models opt tw vw epoch nt nv
            (map (fun i => (i, g i)) (seq i k))
            (map (fun i => (i, f i)) (seq j (nv - j))) l w with
    | (r, w', tr) =>
        exists p,
          j + p <= nv
          /\ valdt_visited tr = seq j p
          /\ updates_in_order tr
          /\ (k = 0 -> p = 0)
          /\ (tw <> None -> vw <> None -> (forall i, g i <> []) ->
              (forall i, f i <> []) ->
              decoder_in_vocabulary (ext_decoder ext) ->
              (no_console_log conf = false -> 1 <= epochs conf) ->
              is_ok r = true)
          /\ (guard_is_exact nt nv -> j * nt <= i * nv + nt ->
              progress_ok nt nv i j tr
              /\ (is_ok r = true -> 1 <= k -> j + p = nv))
          /\ (is_ok r = true -> 1 <= k -> 1 <= nv -> 1 <= j + p)
    end.
Proof.
  induction k as [|k IH]; intros i j l w Hik Hj Hind Hvf.
  - cbn. exists 0. rewrite Nat.add_0_r.
    repeat split; auto; try constructor; lia.
  - cbn [seq map for_train_batches]. unfold bind at 1.
    rewrite train_one_batch_eq.
    destruct nt as [|nt']; [lia|]. set (nt := S nt') in *.
    destruct tw as [wr|].
    2:{ exists 0. rewrite Nat.add_0_r.
        split; [lia|]. split; [reflexivity|]. split; [constructor|].
        split; [discriminate|]. split; [intros Htw; congruence|].
        split; [|discriminate].
        intros _ _. split; [exact I | discriminate]. }
    cbv zeta.
    destruct (forward _ _ _ _ _ _ _ _ _ _ _ _ _ _ _) as [out|e] eqn:Hfw.
    2:{ exists 0. rewrite Nat.add_0_r. split; [lia|]. split; [reflexivity|].
        split; [apply in_order_other; [reflexivity | constructor]|].
        split; [discriminate|].
        split.
        { intros _ _ Hg _ Hdec Hep. exfalso.
          match type of Hfw with
          | forward ?b _ ?pt ?en ?de ?c ?v ?st ?ep ?ii ?n ?lc ?lt ?tw ?lr = _ =>
              destruct (forward_total b pt en de c v st ep ii n lc lt tw lr
                          Hdec (Hg i)) as (out & Hout);
                [unfold train_log_console; apply row_is_defined;
                   [exact Hep | unfold nt; lia]
                |rewrite Hout in Hfw; discriminate]
          end. }
        split; [|discriminate].
        intros _ Hpre. split; [|discriminate].
        cbn. split; [|exact I]. apply one_ahead_of_nat; [lia | lia | nia]. }
    set (l1 := {| last_checkpoint_step := _ |}).
    set (w1 := set_sched_steps (S (sched_steps w)) w).
    set (t1 := step_events opt epoch i (total_loss out) _).
    assert (Ht1v : valdt_visited t1 = []) by (unfold t1, step_events;
      destruct (checkpoint_due conf l (train_step_of epoch nt i));
      reflexivity).
    assert (Ht1c : train_count t1 = 1) by (unfold t1, step_events;
      destruct (checkpoint_due conf l (train_step_of epoch nt i));
      reflexivity).
    unfold bind at 1.
    pose proof (valdt_loop_spec ext conf models vw epoch nt nv (S i) f
                  (nv - j) j l1 w1 ltac:(lia) Hind Hvf) as Hv.
    destruct (valdt_loop ext conf models vw epoch nt nv
                (map (fun i0 => (i0, f i0)) (seq j (nv - j))) l1 w1)
      as [[r2 w2] t2].
    destruct Hv as (p1 & Hp1 & -> & Hlive2 & Hpost & Hcond2 & Hfirst2).
    assert (Htf1 : train_fraction_done l1
                   = f64_quot (Z.of_nat (S i)) (Z.of_nat nt))
      by (unfold l1; cbn [train_fraction_done];
          replace (i + 1) with (S i) by lia; reflexivity).
    assert (Hfirst : is_ok r2 = true -> 1 <= nv -> 1 <= j + p1).
    { intros Hok2 Hnv. destruct j as [|j]; [|lia].
      apply Hfirst2; [|lia|exact Hok2].
      rewrite Htf1. unfold l1; cbn [valdt_fraction_done]. rewrite Hvf.
      apply f64_quot_nonneg. unfold nt; lia. }
    assert (Hord12 : updates_in_order
                       (t1 ++ map (EvForward true epoch) (seq j p1)))
      by (apply updates_in_order_app;
          [apply updates_in_order_step | apply updates_in_order_pulls]).
    assert (Hprog12 : guard_is_exact nt nv -> j * nt <= i * nv + nt ->
                      progress_ok nt nv i j
                        (t1 ++ map (EvForward true epoch) (seq j p1))
                      /\ (j + p1) * nt <= S i * nv + nt
                      /\ (is_ok r2 = true ->
                          p1 = nv - j \/ ~ (j + p1) * nt <= S i * nv)).
    { intros Hex Hpre.
      destruct (Hcond2 Hex ltac:(lia) Htf1) as (Hprog2 & Hdue & Hstop).
      split; [|split; [destruct Hdue as [-> | Hd]; [nia | exact Hd]
                      | exact Hstop]].
      apply progress_ok_app.
      - unfold t1, step_events.
        destruct (checkpoint_due conf l (train_step_of epoch nt i));
          (cbn; split; [apply one_ahead_of_nat; [lia | lia | nia] | tauto]).
      - rewrite Ht1c, Ht1v. cbn [List.length]. rewrite Nat.add_0_r.
        replace (i + 1) with (S i) by lia. exact Hprog2. }
    destruct r2 as [[l2 vb2]|e2].
    2:{ exists p1. split; [lia|].
        split; [now rewrite valdt_visited_app, Ht1v, valdt_visited_pulls|].
        split; [exact Hord12|].
        split; [discriminate|].
        split; [intros _ Hvw _ Hf Hdec Hep; exact (Hlive2 Hvw Hf Hdec Hep)|].
        split; [|discriminate].
        intros Hex Hpre. split; [exact (proj1 (Hprog12 Hex Hpre))|].
        discriminate. }
    destruct Hpost as (-> & Hind2 & Hvf2 & _). cbn [fst snd].
    replace (nv - j - p1) with (nv - (j + p1)) by lia.
    specialize (IH (S i) (j + p1) l2 w2 ltac:(lia) ltac:(lia) Hind2 Hvf2).
    destruct (for_train_batches ext conf models opt (Some wr) vw epoch nt nv
                (map (fun i0 => (i0, g i0)) (seq (S i) k))
                (map (fun i0 => (i0, f i0)) (seq (j + p1) (nv - (j + p1))))
                l2 w2) as [[r3 w3] t3].
    destruct IH as (p2 & Hp2 & Hvis3 & Hord3 & Hnone & Hlive3 & Hcond3 & _).
    exists (p1 + p2). split; [lia|].
    split.
    { rewrite !valdt_visited_app, Ht1v, valdt_visited_pulls, Hvis3.
      cbn [app]. now rewrite seq_app. }
    split.
    { rewrite app_assoc. now apply updates_in_order_app. }
    split; [discriminate|].
    split.
    { intros _ Hvw Hg Hf Hdec Hep. apply Hlive3; try assumption.
      discriminate. }
    split; [|intros _ _ Hnv; specialize (Hfirst eq_refl Hnv); lia].
    intros Hex Hpre.
    destruct (Hprog12 Hex Hpre) as (Hp12 & Hpre2 & Hexit).
    destruct (Hcond3 Hex Hpre2) as (Hprog3 & Hfull).
    split.
    { rewrite app_assoc. apply progress_ok_app; [exact Hp12|].
      rewrite train_count_app, valdt_visited_app, Ht1c, Ht1v,
        train_count_pulls, valdt_visited_pulls.
      cbn [app]. rewrite length_seq, Nat.add_0_r.
      replace (i + 1) with (S i) by lia. exact Hprog3. }
    intros Hok _. destruct k as [|k].
    + (* the last training batch: validation can only stop exhausted *)
      rewrite (Hnone eq_refl) in *.
      destruct (Hexit eq_refl) as [-> | Hno]; [lia|].
      exfalso. apply Hno. assert (S i = nt) as -> by lia. nia.
    + specialize (Hfull Hok ltac:(lia)). lia.
Qed.

(** What one epoch does, whatever its locals and world at entry. *)
Lemma train_epoch_spec (ext : external_t) (conf : conf_t)
  (models : list Component) (opt : Optimizer) (tw vw : option unit)
  (epoch : nat) (l : Locals) (w : World) :
  match train_epoch ext conf models opt tw vw epoch l w with
  | (r, w', tr) =>
      exists p,
        p <= num_batch (valdt_dataloader ext)
        /\ valdt_visited tr = seq 0 p
        /\ updates_in_order tr
        /\ (tw <> None -> vw <> None ->
            (forall i, batch_at (train_dataloader ext) epoch i <> []) ->
            (forall i, batch_at (valdt_dataloader ext) epoch i <> []) ->
            decoder_in_vocabulary (ext_decoder ext) ->
            (no_console_log conf = false -> 1 <= epochs conf) ->
            is_ok r = true)
        /\ (guard_is_exact (num_batch (train_dataloader ext))
              (num_batch (valdt_dataloader ext)) ->
            progress_ok (num_batch (train_dataloader ext))
              (num_batch (valdt_dataloader ext)) 0 0 tr
            /\ (is_ok r = true -> p = num_batch (valdt_dataloader ext)))
        /\ (is_ok r = true -> 1 <= p)
  end.
Proof.
  unfold train_epoch, enumerate.
  set (nt := num_batch (train_dataloader ext)).
  set (nv := num_batch (valdt_dataloader ext)).
  set (l0 := {| last_checkpoint_step := _ |}).
  pose proof (for_train_batches_spec ext conf models opt tw vw epoch nt nv
                (batch_at (train_dataloader ext) epoch)
                (batch_at (valdt_dataloader ext) epoch) nt 0 0 l0 w
                eq_refl (Nat.le_0_l nv) eq_refl eq_refl) as Hspec.
  rewrite Nat.sub_0_r in Hspec.
  destruct (for_train_batches _ _ _ _ _ _ _ _ _ _ _ _ _) as [[r w'] tr].
  destruct Hspec as (p & Hp & Hvis & Hord & _ & Hlive & Hcond & Hfirst).
  exists p. split; [lia|]. split; [exact Hvis|]. split; [exact Hord|].
  split; [exact Hlive|].
  split.
  - intros Hex. destruct (Hcond Hex ltac:(lia)) as (Hprog & Hfull).
    split; [exact Hprog|]. intros Hok.
    specialize (Hfull Hok ltac:(unfold nt, num_batch; lia)). lia.
  - intros Hok.
    specialize (Hfirst Hok ltac:(unfold nt, num_batch; lia)
                  ltac:(unfold nv, num_batch; lia)). lia.
Qed.

(** The first training step of an epoch and the two validation batches that
    follow it when the guard lets the second one pass. *)
Lemma first_step_pulls_two (ext : external_t) (conf : conf_t)
  (models : list Component) (opt : Optimizer) (epoch : nat) (l : Locals)
  (w : World) :
  2 <= num_batch (valdt_dataloader ext) ->
  f64_leb (S754_zero false)
    (f64_quot 1 (Z.of_nat (num_batch (train_dataloader ext)))) = true ->
  f64_leb (f64_quot 1 (Z.of_nat (num_batch (valdt_dataloader ext))))
    (f64_quot 1 (Z.of_nat (num_batch (train_dataloader ext)))) = true ->
  (forall i, batch_at (train_dataloader ext) epoch i <> []) ->
  (forall i, batch_at (valdt_dataloader ext) epoch i <> []) ->
  decoder_in_vocabulary (ext_decoder ext) ->
  (no_console_log conf = false -> 1 <= epochs conf) ->
  exists t1 rest,
    snd (train_epoch ext conf models opt (Some tt) (Some tt) epoch l w)
    = t1 ++ EvForward true epoch 0 :: EvForward true epoch 1 :: rest
    /\ train_count t1 = 1 /\ valdt_visited t1 = [].
Proof.
  intros Hnv Hzero Hpass Hg Hf Hdec Hep.
  unfold train_epoch, enumerate.
  remember (num_batch (train_dataloader ext)) as nt eqn:Hnt.
  remember (num_batch (valdt_dataloader ext)) as nv eqn:Env.
  destruct nt as [|nt']; [discriminate Hnt|].
  destruct nv as [|[|nv2]]; [lia | lia |].
  clear Hnt Env. cbn [seq map for_train_batches].
  set (nt := S nt') in *. set (nv := S (S nv2)) in *.
  unfold bind at 1. rewrite train_one_batch_eq. unfold nt at 1.
  cbv zeta.
  match goal with
  | |- context [forward ?b _ ?pt ?en ?de ?c ?v ?st ?ep ?ii ?n ?lc ?lt ?tw ?lr] =>
      destruct (forward_total b pt en de c v st ep ii n lc lt tw lr
                  Hdec (Hg 0)) as (out & ->);
        [unfold train_log_console; apply row_is_defined;
           [exact Hep | lia]|]
  end.
  set (l1 := {| last_checkpoint_step := _ |}).
  set (w1 := set_sched_steps (S (sched_steps w)) w).
  set (t1 := step_events opt epoch 0 (total_loss out) _).
  unfold bind at 1.
  (* the first validation batch *)
  destruct (valdt_loop_cons ext conf models (Some tt) epoch nt nv 0
              (batch_at (valdt_dataloader ext) epoch 0)
              ((1, batch_at (valdt_dataloader ext) epoch 1)
               :: map (fun i => (i, batch_at (valdt_dataloader ext) epoch i))
                    (seq 2 nv2)) l1 w1)
    as (l2 & Hind2 & Hvf2 & Htf2 & ->); [|lia|].
  { unfold l1; cbn [valdt_fraction_done train_fraction_done valdt_batch_ind].
    change (Z.of_nat (0 + 1)) with 1%Z. rewrite Hzero.
    apply andb_true_iff; split; [reflexivity | apply Z.ltb_lt; lia]. }
  cbv zeta. rewrite call_forward_eq.
  match goal with
  | |- context [forward ?b _ ?pt ?en ?de ?c ?v ?st ?ep ?ii ?n ?lc ?lt ?tw ?lr] =>
      destruct (forward_total b pt en de c v st ep ii n lc lt tw lr
                  Hdec (Hf 0)) as (out2 & ->);
        [unfold train_log_console; apply row_is_defined;
           [exact Hep | lia]|]
  end.
  (* the second one *)
  destruct (valdt_loop_cons ext conf models (Some tt) epoch nt nv 1
              (batch_at (valdt_dataloader ext) epoch 1)
              (map (fun i => (i, batch_at (valdt_dataloader ext) epoch i))
                 (seq 2 nv2)) l2
              (set_eval CPointEncoder (eval_all models w1)))
    as (l3 & Hind3 & Hvf3 & Htf3 & ->); [|lia|].
  { rewrite Hvf2, Htf2, Hind2. unfold l1; cbn [train_fraction_done].
    change (Z.of_nat (0 + 1)) with 1%Z. rewrite Hpass.
    apply andb_true_iff; split; [reflexivity | apply Z.ltb_lt; lia]. }
  cbv zeta. rewrite call_forward_eq.
  match goal with
  | |- context [forward ?b _ ?pt ?en ?de ?c ?v ?st ?ep ?ii ?n ?lc ?lt ?tw ?lr] =>
      destruct (forward_total b pt en de c v st ep ii n lc lt tw lr
                  Hdec (Hf 1)) as (out3 & ->);
        [unfold train_log_console; apply row_is_defined;
           [exact Hep | lia]|]
  end.
  destruct (valdt_loop _ _ _ _ _ _ _ _ _ _) as [[r4 w4] t4].
  assert (Ht1 : train_count t1 = 1 /\ valdt_visited t1 = [])
    by (unfold t1, step_events; destruct (checkpoint_due conf _ _);
        split; reflexivity).
  destruct r4 as [[l4 vb4]|e4].
  - destruct (for_train_batches _ _ _ _ _ _ _ _ _ _ _ _ _) as [[r5 w5] t5].
    exists t1, (t4 ++ t5). cbn [snd]. split; [|exact Ht1].
    reflexivity.
  - exists t1, t4. cbn [snd]. split; [|exact Ht1]. reflexivity.
Qed.

Lemma progress_ok_app_inv (nt nv : nat) (t1 t2 : list event_t) :
  forall n m,
    progress_ok nt nv n m (t1 ++ t2) ->
    progress_ok nt nv (n + train_count t1)
      (m + List.length (valdt_visited t1)) t2.
Proof.
  induction t1 as [|ev t1 IH]; intros n m Hp.
  - cbn. now rewrite !Nat.add_0_r.
  - destruct ev as [| | | | | | | | | |[|] e i| | | | | |]; cbn in *;
      try (apply IH; assumption).
    + destruct Hp as [_ Hp]. rewrite Nat.add_succ_r, <- Nat.add_succ_l.
      now apply IH.
    + destruct Hp as [_ Hp]. rewrite Nat.add_succ_r, <- Nat.add_succ_l.
      now apply IH.
Qed.


(** *** The order of the update events *)

Lemma in_order_bind {A B : Type} (m : M (T := T) A) (f : A -> M (T := T) B)
  (w : World) :
  updates_in_order (snd (m w)) ->
  (forall a w1, updates_in_order (snd (f a w1))) ->
  updates_in_order (snd (bind m f w)).
Proof.
  intros Hm Hf. unfold bind. destruct (m w) as [[[a|e] w1] t1]; [|exact Hm].
  specialize (Hf a w1). destruct (f a w1) as [[r w2] t2].
  now apply updates_in_order_app.
Qed.

Lemma in_order_emit (ev : event_t) (w : World) :
  is_update ev = false -> updates_in_order (snd (emit ev w)).
Proof. intros Hev; cbn. apply in_order_other; [exact Hev | constructor]. Qed.

Lemma in_order_silent {A : Type} (m : M (T := T) A) (w : World) :
  snd (m w) = [] -> updates_in_order (snd (m w)).
Proof. intros ->; constructor. Qed.

Ltac in_order :=
  repeat first
    [ apply in_order_bind; [|intros ? ?]
    | apply in_order_emit; reflexivity
    | apply in_order_silent; reflexivity
    | match goal with
      | |- context [if ?b then _ else _] => destruct b
      | |- context [match ?x with _ => _ end] => destruct x
      end ].

Lemma prepare_run_dirs_in_order (w : World) :
  updates_in_order (snd (prepare_run_dirs (T := T) w)).
Proof. unfold prepare_run_dirs, input, rmtree, makedirs. in_order. Qed.

Lemma init_run_in_order (conf : conf_t) (w : World) :
  updates_in_order (snd (init_run conf w)).
Proof.
  rewrite init_run_eq. destruct (stage2_loads w), (no_tb_log conf); cbn;
    repeat (apply in_order_other; [reflexivity|]); constructor.
Qed.

Lemma for_epochs_in_order (ext : external_t) (conf : conf_t)
  (models : list Component) (opt : Optimizer) (tw vw : option unit)
  (range : list nat) :
  forall last l w,
    updates_in_order
      (snd (for_epochs ext conf models opt tw vw range last l w)).
Proof.
  induction range as [|e range IH]; intros last l w; [constructor|].
  cbn [for_epochs]. apply in_order_bind; [|intros l1 w1; apply IH].
  pose proof (train_epoch_spec ext conf models opt tw vw e l w) as Hs.
  destruct (train_epoch ext conf models opt tw vw e l w) as [[r w'] tr].
  destruct Hs as (p & _ & _ & Hord & _). exact Hord.
Qed.

(** C5: a training step whose forward pass returned [out] runs, after that
    pass and in this order, the optimizer step, the scheduler step, the
    zeroing of the gradients and the backward pass on [out]'s total loss
    (then the checkpoint, when due); and in the trace of any run of [train]
    every optimizer step, scheduler step, zeroing and backward pass belongs
    to such a block, so that no backward pass precedes the optimizer step of
    its training step. *)
Theorem optimizer_steps_before_backward :
  (forall (ext : external_t) (conf : conf_t) (opt : Optimizer) (wr : unit)
          (epoch nt ind : nat) (batch : list (list (@Obj Geo))) (l : Locals)
          (w : World) (out : ForwardOut),
      1 <= nt ->
      forward batch ["object"]
        (ext_pointencoder ext (training (pointencoder_net w)))
        (ext_encoder ext) (ext_decoder ext) conf false
        (inject_Z (train_step_of epoch nt ind)) epoch ind nt
        (train_log_console conf l (train_step_of epoch nt ind))
        (negb (no_tb_log conf)) (Some wr) (sched_steps w) = Ok out ->
      exists l' tail,
        train_one_batch ext conf opt (Some wr) epoch nt ind batch l w
        = (Ok l', set_sched_steps (S (sched_steps w)) w,
           [ EvForward false epoch ind; EvOptStep; EvSchedStep; EvZeroGrad;
             EvBackward (total_loss out) ] ++ tail)
        /\ forallb (fun ev => negb (is_update ev)) tail = true)
  /\ (forall (ext : external_t) (conf : conf_t) (w : World),
         updates_in_order (snd (train ext conf w))).
Proof.
  split.
  - intros ext conf opt wr epoch nt ind batch l w out Hnt Hfw.
    rewrite train_one_batch_eq. destruct nt as [|nt]; [lia|].
    cbv zeta. rewrite Hfw. unfold step_events.
    eexists; eexists; split; [reflexivity|].
    destruct (checkpoint_due conf l (train_step_of epoch (S nt) ind));
      reflexivity.
  - intros ext conf w. unfold train.
    apply in_order_bind; [apply prepare_run_dirs_in_order | intros u w1].
    apply in_order_bind; [apply init_run_in_order | intros setup w2].
    destruct setup as [[[models names] opt] writer].
    apply in_order_bind; [apply for_epochs_in_order | intros last w3].
    unfold final_checkpoint. in_order.
Qed.

End TrainFacts.

Lemma refused_overwrite_witness :
  train ex_external ex_conf (ex_world "n")
  = (Raise SystemExit, set_stdin [] (ex_world "n"), [EvInput])
  /\ log_dir_exists (set_stdin [] (ex_world "n")) = true
  /\ model_dir_exists (set_stdin [] (ex_world "n")) = false.
Proof.
  apply (refused_overwrite_exits_before_any_mutation ex_external ex_conf
           (ex_world "n") "n" []);
    [reflexivity | reflexivity | discriminate].
Defined.

Lemma optimizer_witness :
  exists writer w' tr,
    init_run ex_conf (ex_world "y")
    = (Ok ([CEncoder; CDecoder], ["encoder"; "decoder"],
           {| opt_params := CEncoder |}, writer), w', tr)
    /\ In (EvAdam CEncoder) tr
    /\ ~ In (EvAdam CPointEncoder) tr
    /\ encoder_net w' = {| training := false; requires_grad := false |}
    /\ decoder_net w' = {| training := false; requires_grad := false |}
    /\ pointencoder_net w' = {| training := true; requires_grad := true |}.
Proof.
  apply (optimizer_is_built_over_structure_encoder ex_conf (ex_world "y")).
  reflexivity.
Defined.

Lemma final_checkpoint_witness :
  exists pre epoch,
    epochs ex_conf = S epoch
    /\ snd (train ex_external ex_conf (ex_world "y"))
       = pre ++ [ EvSaveCheckpoint [CEncoder; CDecoder]
                    ["encoder"; "decoder"] epoch false
                    [{| opt_params := CEncoder |}] ["pointencoder"];
                  EvCloseLog ].
Proof.
  eapply (final_checkpoint_saves_encoder_and_decoder ex_external ex_conf
            (ex_world "y")).
  vm_compute; reflexivity.
Defined.

Lemma optimizer_steps_witness :
  exists l' tail loss,
    train_one_batch ex_external ex_conf {| opt_params := CEncoder |}
      (Some tt) 0 2 0 [ex_objects] initial_locals (ex_world "y")
    = (Ok l', set_sched_steps 1 (ex_world "y"),
       [ EvForward false 0 0; EvOptStep; EvSchedStep; EvZeroGrad;
         EvBackward loss ] ++ tail)
    /\ forallb (fun ev => negb (is_update ev)) tail = true.
Proof.
  assert (Hfw : exists out,
             forward [ex_objects] ["object"]
               (ext_pointencoder ex_external
                  (training (pointencoder_net (ex_world "y"))))
               (ext_encoder ex_external) (ext_decoder ex_external) ex_conf
               false (inject_Z (train_step_of 0 2 0)) 0 0 2
               (train_log_console ex_conf initial_locals
                  (train_step_of 0 2 0))
               (negb (no_tb_log ex_conf)) (Some tt)
               (sched_steps (ex_world "y")) = Ok out)
    by (eexists; vm_compute; reflexivity).
  destruct Hfw as [out Hfw].
  destruct (proj1 (optimizer_steps_before_backward (T := f32) (Geo := Z)
                     (Code := Z) (Latent := nat))
              ex_external ex_conf {| opt_params := CEncoder |} tt 0 2 0
              [ex_objects] initial_locals (ex_world "y") out
              ltac:(lia) Hfw) as (l' & tail & Heq & Htail).
  exists l', tail, (total_loss out). split; assumption.
Defined.


Lemma ex_decoder_in_vocabulary :
  decoder_in_vocabulary (Geo := Z) ex_decoder.
Proof.
  intros code n; cbv; repeat first [apply Forall_nil | apply Forall_cons];
    tauto.
Qed.

Lemma ex_huge_pred_Z : Z.of_nat ex_huge_pred = 18014398509481983%Z.
Proof. unfold ex_huge_pred. apply Z2Nat.id. discriminate. Qed.

(** The float test lets a second validation batch pass after the first
    training batch of [2^54 + 1], although [1 / 2^54] is more than
    [1 / (2^54 + 1)]: two of [2^54] validation batches are consumed when one
    of [2^54 + 1] training batches is, which is more than one validation
    batch ahead. *)
Lemma validation_runs_ahead_on_huge_loaders :
  1 <= num_batch (train_dataloader ex_external_huge)
  /\ f64_leb (f64_quot 1 18014398509481984) (f64_quot 1 18014398509481985)
     = true
  /\ ~ progress_ok (num_batch (train_dataloader ex_external_huge))
         (num_batch (valdt_dataloader ex_external_huge)) 0 0
         (snd (train_epoch ex_external_huge ex_conf [CEncoder; CDecoder]
                 {| opt_params := CEncoder |} (Some tt) (Some tt) 0
                 initial_locals (ex_world "y"))).
Proof.
  assert (Hnt : Z.of_nat (num_batch (train_dataloader ex_external_huge))
                = 18014398509481985%Z).
  { change (num_batch (train_dataloader ex_external_huge))
      with (S (S ex_huge_pred)).
    rewrite !Nat2Z.inj_succ, ex_huge_pred_Z. reflexivity. }
  assert (Hnv : Z.of_nat (num_batch (valdt_dataloader ex_external_huge))
                = 18014398509481984%Z).
  { change (num_batch (valdt_dataloader ex_external_huge))
      with (S ex_huge_pred).
    rewrite !Nat2Z.inj_succ, ex_huge_pred_Z. reflexivity. }
  split; [unfold num_batch; lia|].
  split; [vm_compute; reflexivity|].
  intros Hprog.
  destruct (first_step_pulls_two ex_external_huge ex_conf [CEncoder; CDecoder]
              {| opt_params := CEncoder |} 0 initial_locals (ex_world "y"))
    as (t1 & rest & Heq & Hc & Hv).
  - lia.
  - rewrite Hnt. vm_compute; reflexivity.
  - rewrite Hnt, Hnv. vm_compute; reflexivity.
  - intros i; discriminate.
  - intros i; discriminate.
  - exact ex_decoder_in_vocabulary.
  - intros _. vm_compute; lia.
  - rewrite Heq in Hprog. apply progress_ok_app_inv in Hprog.
    rewrite Hc, Hv in Hprog. cbn [progress_ok] in Hprog.
    destruct Hprog as (_ & Hahead & _).
    apply one_ahead_to_nat in Hahead; lia.
Qed.

(** * Further properties of the aggregator *)

Lemma getitem_setitem_other {V : Type} (d : dict V) (k k' : string) (v : V) :
  k <> k' -> getitem (setitem d k' v) k = getitem d k.
Proof.
  intros Hne; induction d as [|[k0 v0] d IH]; simpl.
  - destruct (String.eqb_spec k' k); [congruence | reflexivity].
  - destruct (String.eqb_spec k0 k') as [->|Hn0]; simpl.
    + destruct (String.eqb_spec k' k); [congruence | reflexivity].
    + destruct (String.eqb k0 k); [reflexivity | exact IH].
Qed.

Lemma getitem_setitem_same {V : Type} (d : dict V) (k : string) (v : V) :
  In k (keys d) -> getitem (setitem d k v) k = Ok v.
Proof.
  induction d as [|[k0 v0] d IH]; simpl; [tauto|].
  destruct (String.eqb_spec k0 k) as [->|Hn0]; simpl.
  - intros _. now rewrite String.eqb_refl.
  - intros [Heq|Hin]; [congruence|].
    destruct (String.eqb_spec k0 k); [congruence | now apply IH].
Qed.

Section TraversalFacts.

Context {T : Type} `{Tensor T} {Geo Code Latent : Type}.

Local Abbreviation node := (@Node Geo).
Local Abbreviation decoder_t := (@Decoder T Geo Code).
Local Abbreviation encoder_t := (@Encoder Geo Latent).

Lemma fold_nodes_app (point : Geo -> Code) (dec : decoder_t)
  (ns1 ns2 : list node) :
  forall losses cnt,
    fold_nodes (ns1 ++ ns2) point dec losses cnt
    = ('(l, c) <- fold_nodes ns1 point dec losses cnt ;;
       fold_nodes ns2 point dec l c)%py.
Proof.
  induction ns1 as [|n ns1 IH]; intros losses cnt; simpl; [reflexivity|].
  destruct (forward_one_node n point dec losses) as [l1|e]; simpl;
    [apply IH | reflexivity].
Qed.

Lemma forward_one_obj_fold (point : Geo -> Code) (dec : decoder_t) (n : node) :
  forall losses cnt,
    forward_one_obj n point dec losses cnt
    = fold_nodes (preorder n) point dec losses cnt.
Proof.
  induction n as [g cs IHcs] using Node_rect_children; intros losses cnt.
  rewrite forward_one_obj_eq. simpl children. simpl preorder.
  cbn [fold_nodes].
  destruct (forward_one_node (mkNode g cs) point dec losses) as [l1|e];
    simpl; [|reflexivity].
  generalize (cnt + 1) as c1. revert l1.
  induction IHcs as [|ch cs Hch _ IH]; intros l1 c1; simpl; [reflexivity|].
  rewrite fold_nodes_app, Hch.
  destruct (fold_nodes (preorder ch) point dec l1 c1) as [[l2 c2]|e]; simpl;
    [apply IH | reflexivity].
Qed.

Lemma for_objects_fold (point : Geo -> Code) (enc : encoder_t)
  (dec : decoder_t) (objects : list (@Obj Geo)) :
  forall losses cnt,
    for_objects objects point enc dec losses cnt
    = fold_nodes (batch_nodes objects) point dec losses cnt.
Proof.
  induction objects as [|o objects IH]; intros losses cnt; simpl;
    [reflexivity|].
  rewrite fold_nodes_app, forward_one_obj_fold.
  destruct (fold_nodes (preorder (root o)) point dec losses cnt)
    as [[l2 c2]|e]; simpl; [apply IH | reflexivity].
Qed.

(** X1: the recursion of the aggregator is a left-to-right pass over the
    nodes in pre-order (a node before its children, the children in their
    order, the objects of a batch one after the other): it gives the result
    of applying [forward_one_node] to that list of nodes, node by node. *)
Theorem aggregator_is_preorder_fold :
  (forall (n : node) (point : Geo -> Code) (dec : decoder_t)
          (losses : dict T) (cnt : nat),
      forward_one_obj n point dec losses cnt
      = fold_nodes (preorder n) point dec losses cnt)
  /\ (forall (objects : list (@Obj Geo)) (point : Geo -> Code)
             (enc : encoder_t) (dec : decoder_t) (losses : dict T) (cnt : nat),
         for_objects objects point enc dec losses cnt
         = fold_nodes (batch_nodes objects) point dec losses cnt).
Proof.
  split.
  - intros; apply forward_one_obj_fold.
  - intros; apply for_objects_fold.
Qed.

Lemma accumulate_other (its : list (string * T)) (k : string) :
  ~ In k (map fst its) ->
  forall losses losses',
    accumulate its losses = Ok losses' -> getitem losses' k = getitem losses k.
Proof.
  induction its as [|[k' v] its IH]; intros Hn losses losses' Hrun;
    simpl in *.
  - now injection Hrun as <-.
  - destruct (getitem losses k') as [old|e]; simpl in Hrun; [|discriminate].
    rewrite (IH (fun Hin => Hn (or_intror Hin)) _ _ Hrun).
    apply getitem_setitem_other. intros ->. apply Hn. now left.
Qed.

Lemma fold_nodes_other (point : Geo -> Code) (dec : decoder_t) (k : string)
  (nodes : list node) :
  (forall n, In n nodes -> ~ In k (node_keys point dec n)) ->
  forall losses cnt acc cnt',
    fold_nodes nodes point dec losses cnt = Ok (acc, cnt') ->
    getitem acc k = getitem losses k.
Proof.
  induction nodes as [|n nodes IH]; intros Hn losses cnt acc cnt' Hrun;
    simpl in Hrun.
  - now injection Hrun as <- _.
  - destruct (forward_one_node n point dec losses) as [l1|e] eqn:Hnode;
      simpl in Hrun; [|discriminate].
    rewrite (IH (fun m Hm => Hn m (or_intror Hm)) _ _ _ _ Hrun).
    unfold forward_one_node in Hnode.
    apply (accumulate_other _ k (Hn n (or_introl eq_refl)) _ _ Hnode).
Qed.

(** X2: a slot whose name no node of the batch reports is left as it was:
    after the object loop it still holds the value it had before (zero, when
    the loop starts from the initial accumulator). *)
Theorem unreported_slot_is_untouched (objects : list (@Obj Geo))
  (point : Geo -> Code) (enc : encoder_t) (dec : decoder_t) (k : string)
  (losses acc : dict T) (cnt cnt' : nat) :
  (forall n, In n (batch_nodes objects) -> ~ In k (node_keys point dec n)) ->
  for_objects objects point enc dec losses cnt = Ok (acc, cnt') ->
  getitem acc k = getitem losses k.
Proof.
  intros Hn Hrun. rewrite for_objects_fold in Hrun.
  exact (fold_nodes_other point dec k _ Hn _ _ _ _ Hrun).
Qed.

End TraversalFacts.

Lemma unreported_slot_witness :
  exists acc cnt',
    for_objects ex_objects ex_point ex_encoder ex_decoder_foreign
      [("geo", tzero); ("kldiv", tzero); ("sym", tzero)] 0 = Ok (acc, cnt')
    /\ getitem acc "sym"
       = getitem [("geo", tzero); ("kldiv", tzero); ("sym", tzero)] "sym".
Proof.
  eexists; eexists; split; [vm_compute; reflexivity|].
  eapply (unreported_slot_is_untouched ex_objects ex_point ex_encoder
            ex_decoder_foreign "sym" _ _ 0).
  - intros n Hin Hk. cbv in Hk. intuition discriminate.
  - vm_compute; reflexivity.
Defined.

(** * Further properties of the batch forward pass *)

Lemma index_not_In (l : list string) (x : string) :
  ~ In x l -> index l x = Raise ValueError.
Proof.
  induction l as [|y l IH]; intros Hn; simpl; [reflexivity|].
  destruct (String.eqb_spec y x) as [->|Hne]; [exfalso; apply Hn; now left|].
  rewrite IH; [reflexivity | intros Hin; apply Hn; now right].
Qed.

Section ForwardMore.

Context {T : Type} `{Tensor T} {Geo Code Latent : Type}.

Local Abbreviation node := (@Node Geo).
Local Abbreviation decoder_t := (@Decoder T Geo Code).
Local Abbreviation encoder_t := (@Encoder Geo Latent).

(** X3: [forward] looks the objects up by the position of the name [object]
    among the feature names: it raises [ValueError] when the name is not
    among them, and [IndexError] when the batch has no column at that
    position; in both cases before any node is visited. *)
Theorem forward_needs_the_object_column (batch : list (list (@Obj Geo)))
  (data_features : list string) (point : Geo -> Code) (enc : encoder_t)
  (dec : decoder_t) (conf : Conf) (is_valdt : bool) (step : Q)
  (epoch batch_ind nb : nat) (log_console log_tb : bool)
  (tb_writer : option unit) (lr : LR) :
  (~ In "object" data_features ->
   forward batch data_features point enc dec conf is_valdt step epoch
     batch_ind nb log_console log_tb tb_writer lr = Raise ValueError)
  /\ (forall i, index data_features "object" = Ok i ->
                List.length batch <= i ->
                forward batch data_features point enc dec conf is_valdt step
                  epoch batch_ind nb log_console log_tb tb_writer lr
                = Raise IndexError).
Proof.
  split.
  - intros Hn. unfold forward. now rewrite (index_not_In _ _ Hn).
  - intros i Hi Hlen. unfold forward. rewrite Hi. cbn [rbind].
    unfold list_getitem. apply nth_error_None in Hlen. now rewrite Hlen.
Qed.


(** X5: when [forward] returns, each of the ten terms it returns is the
    accumulated sum of its own name divided by the number of nodes of the
    batch and multiplied by the weight configured for that same name; the
    total is the sum of the ten terms taken from zero in the order of the
    vocabulary; and a console row, when asked for, shows that total and, as
    its structure loss, the leaf, exists and semantic terms added in this
    order. *)
Theorem forward_returns_the_weighted_mean (objects : list (@Obj Geo))
  (more : list (list (@Obj Geo))) (point : Geo -> Code) (enc : encoder_t)
  (dec : decoder_t) (conf : Conf) (is_valdt : bool) (step : Q)
  (epoch batch_ind nb : nat) (log_console log_tb : bool)
  (tb_writer : option unit) (lr : LR) (out : ForwardOut) :
  forward (objects :: more) ["object"] point enc dec conf is_valdt step epoch
    batch_ind nb log_console log_tb tb_writer lr = Ok out ->
  exists acc,
    for_objects objects point enc dec init_losses 0
      = Ok (acc, batch_size objects)
    /\ losses_out out = weighted_mean conf acc (batch_size objects)
    /\ total_loss out
       = fold_left tadd (values (weighted_mean conf acc (batch_size objects)))
           tzero
    /\ (log_console = true ->
        exists row leaf exists_ semantic,
          console out = Some row
          /\ m_total row = total_loss out
          /\ getitem (losses_out out) "leaf" = Ok leaf
          /\ getitem (losses_out out) "exists" = Ok exists_
          /\ getitem (losses_out out) "semantic" = Ok semantic
          /\ m_struct row = tadd (tadd leaf exists_) semantic).
Proof.
  intros Hrun. unfold forward in Hrun.
  cbn [index String.eqb Ascii.eqb Bool.eqb rbind list_getitem nth_error]
    in Hrun.
  pose proof (for_objects_spec point enc dec objects init_losses 0) as Hs.
  destruct (for_objects objects point enc dec init_losses 0) as [[acc cnt]|e];
    [|discriminate].
  destruct Hs as (Hk & -> & _). change (keys init_losses) with vocabulary in Hk.
  destruct (dict_of_vocabulary acc Hk)
    as (a0 & a1 & a2 & a3 & a4 & a5 & a6 & a7 & a8 & a9 & ->).
  exists [ ("latent", a0); ("geo", a1); ("center", a2); ("scale", a3);
           ("leaf", a4); ("exists", a5); ("semantic", a6);
           ("edge_exists", a7); ("sym", a8); ("adj", a9) ].
  split; [reflexivity|].
  destruct log_console;
    [unfold console_row in Hrun;
     destruct (console_percent conf epoch batch_ind nb) as [pct|e];
     [|discriminate]|];
    destruct log_tb, tb_writer; cbn in Hrun;
    injection Hrun as <-;
    (split; [reflexivity|]); (split; [reflexivity|]);
    intros Hlc; try discriminate;
    do 4 eexists; repeat split; reflexivity.
Qed.

End ForwardMore.

Lemma forward_needs_the_object_column_witness :
  forward [ex_objects] ["geo"; "box"] ex_point ex_encoder ex_decoder ex_conf
    false (0 # 1)%Q 0 0 1 true true (Some tt) 0 = Raise ValueError.
Proof.
  apply (proj1 (forward_needs_the_object_column [ex_objects] ["geo"; "box"]
                  ex_point ex_encoder ex_decoder ex_conf false (0 # 1)%Q
                  0 0 1 true true (Some tt) 0)).
  cbv; intuition discriminate.
Defined.


Lemma forward_returns_the_weighted_mean_witness :
  exists acc,
    for_objects ex_objects ex_point ex_encoder ex_decoder init_losses 0
      = Ok (acc, batch_size ex_objects)
    /\ getitem (weighted_mean ex_conf acc (batch_size ex_objects)) "geo"
       = Ok (SFmul 24 128 (SFdiv 24 128 (f32_of_Z 5) (f32_of_Z 4)) f32_one).
Proof.
  pose proof (forward_returns_the_weighted_mean (T := f32) ex_objects []
                ex_point ex_encoder ex_decoder ex_conf false (0 # 1)%Q
                0 0 1 false false None 0) as Hw.
  specialize (Hw _ eq_refl). destruct Hw as (acc & Hrun & _).
  exists acc. split; [exact Hrun|].
  vm_compute in Hrun. injection Hrun as <-. vm_compute. reflexivity.
Defined.

(** * A NaN loss in binary32 *)

Lemma f32_add_nan_r (x : f32) : tadd x f32_nan = f32_nan.
Proof. destruct x as [s|s| |s m e]; reflexivity. Qed.

Lemma f32_sum_from_nan (l : list f32) : fold_left tadd l f32_nan = f32_nan.
Proof. induction l as [|x l IH]; [reflexivity | exact IH]. Qed.

Lemma f32_sum_with_nan (l : list f32) :
  forall z, In f32_nan l -> fold_left tadd l z = f32_nan.
Proof.
  induction l as [|x l IH]; intros z Hin; [destruct Hin|].
  destruct Hin as [->|Hin]; cbn [fold_left].
  - rewrite f32_add_nan_r. apply f32_sum_from_nan.
  - now apply IH.
Qed.

Section NanFacts.

Context {Geo Code Latent : Type}.

Local Abbreviation node := (@Node Geo).
Local Abbreviation decoder_t := (@Decoder f32 Geo Code).
Local Abbreviation encoder_t := (@Encoder Geo Latent).

Lemma accumulate_keeps_nan (its : list (string * f32)) (k : string) :
  forall losses losses',
    getitem losses k = Ok f32_nan -> accumulate its losses = Ok losses' ->
    getitem losses' k = Ok f32_nan.
Proof.
  induction its as [|[k' v] its IH]; intros losses losses' Hnan Hrun;
    simpl in Hrun.
  - now injection Hrun as <-.
  - destruct (getitem losses k') as [old|e] eqn:Hold; simpl in Hrun;
      [|discriminate].
    eapply IH; [|exact Hrun].
    destruct (String.eqb_spec k k') as [<-|Hne].
    + rewrite Hnan in Hold. injection Hold as <-.
      apply getitem_setitem_same. now apply getitem_In with f32_nan.
    + now rewrite getitem_setitem_other.
Qed.

Lemma accumulate_takes_nan (its : list (string * f32)) (k : string) :
  In (k, f32_nan) its ->
  forall losses losses',
    accumulate its losses = Ok losses' -> getitem losses' k = Ok f32_nan.
Proof.
  induction its as [|[k' v] its IH]; intros Hin losses losses' Hrun;
    [destruct Hin|]. simpl in Hrun.
  destruct (getitem losses k') as [old|e] eqn:Hold; simpl in Hrun;
    [|discriminate].
  destruct Hin as [[= -> ->]|Hin]; [|now apply (IH Hin _ _ Hrun)].
  eapply (accumulate_keeps_nan its k); [|exact Hrun].
  assert (Hn : SFadd 24 128 old f32_nan = f32_nan)
    by (destruct old; reflexivity).
  rewrite Hn. apply getitem_setitem_same.
  now apply getitem_In with old.
Qed.

Lemma fold_nodes_keeps_nan (point : Geo -> Code) (dec : decoder_t)
  (k : string) (nodes : list node) :
  forall losses cnt acc cnt',
    getitem losses k = Ok f32_nan ->
    fold_nodes nodes point dec losses cnt = Ok (acc, cnt') ->
    getitem acc k = Ok f32_nan.
Proof.
  induction nodes as [|n nodes IH]; intros losses cnt acc cnt' Hnan Hrun;
    simpl in Hrun.
  - now injection Hrun as <- _.
  - destruct (forward_one_node n point dec losses) as [l1|e] eqn:Hnode;
      simpl in Hrun; [|discriminate].
    eapply IH; [|exact Hrun].
    exact (accumulate_keeps_nan _ k _ _ Hnan Hnode).
Qed.

Lemma fold_nodes_takes_nan (point : Geo -> Code) (dec : decoder_t)
  (k : string) (n : node) (nodes : list node) :
  In n nodes ->
  In (k, f32_nan) (items (node_recon_loss dec (point (norm_geo n)) n)) ->
  forall losses cnt acc cnt',
    fold_nodes nodes point dec losses cnt = Ok (acc, cnt') ->
    getitem acc k = Ok f32_nan.
Proof.
  induction nodes as [|m nodes IH]; intros Hin Hk losses cnt acc cnt' Hrun;
    [destruct Hin|]. simpl in Hrun.
  destruct (forward_one_node m point dec losses) as [l1|e] eqn:Hnode;
    simpl in Hrun; [|discriminate].
  destruct Hin as [->|Hin]; [|now apply (IH Hin Hk _ _ _ _ Hrun)].
  eapply (fold_nodes_keeps_nan point dec k nodes); [|exact Hrun].
  exact (accumulate_takes_nan _ k Hk _ _ Hnode).
Qed.

(** X6: in binary32 a NaN poisons the loss: when some node of the batch is
    given a NaN loss for a name by the decoder and [forward] returns, the
    term of that name and the total loss it returns are NaN, whatever the
    weights. *)
Theorem nan_loss_makes_the_total_nan (objects : list (@Obj Geo))
  (more : list (list (@Obj Geo))) (point : Geo -> Code) (enc : encoder_t)
  (dec : decoder_t) (conf : @Conf f32) (is_valdt : bool) (step : Q)
  (epoch batch_ind nb : nat) (log_console log_tb : bool)
  (tb_writer : option unit) (lr : LR) (out : ForwardOut) (n : node)
  (k : string) :
  In n (batch_nodes objects) ->
  In (k, f32_nan) (items (node_recon_loss dec (point (norm_geo n)) n)) ->
  forward (objects :: more) ["object"] point enc dec conf is_valdt step epoch
    batch_ind nb log_console log_tb tb_writer lr = Ok out ->
  getitem (losses_out out) k = Ok f32_nan /\ total_loss out = f32_nan.
Proof.
  intros Hin Hk Hrun.
  destruct (forward_Ok_after_loop objects more point enc dec conf is_valdt
              step epoch batch_ind nb log_console log_tb tb_writer lr out
              Hrun) as (acc & cnt & Hloop & Hw & Htot & _).
  pose proof (for_objects_spec point enc dec objects init_losses 0) as Hs.
  rewrite Hloop in Hs. destruct Hs as (Hkeys & _ & _).
  change (keys init_losses) with vocabulary in Hkeys.
  rewrite for_objects_fold in Hloop.
  pose proof (fold_nodes_takes_nan point dec k n _ Hin Hk _ _ _ _ Hloop)
    as Hnan.
  assert (Hterm : getitem (losses_out out) k = Ok f32_nan).
  { pose proof (getitem_In _ _ _ Hnan) as Hkin. rewrite Hkeys in Hkin.
    destruct (dict_of_vocabulary acc Hkeys)
      as (a0 & a1 & a2 & a3 & a4 & a5 & a6 & a7 & a8 & a9 & ->).
    cbn in Hw. injection Hw as <-.
    cbv [vocabulary In] in Hkin.
    repeat (destruct Hkin as [<-|Hkin];
            [cbn in Hnan; injection Hnan as ->; reflexivity|]).
    destruct Hkin. }
  split; [exact Hterm|].
  rewrite Htot. unfold sum_losses. apply f32_sum_with_nan.
  clear - Hterm. induction (losses_out out) as [|[k' v] d IH];
    simpl in *; [discriminate|].
  destruct (String.eqb k' k); [injection Hterm as ->; now left|].
  right; now apply IH.
Qed.

End NanFacts.

Lemma nan_loss_witness :
  exists out,
    forward [ex_objects] ["object"] ex_point ex_encoder ex_decoder_nan ex_conf
      false (0 # 1)%Q 0 0 1 false false None 0 = Ok out
    /\ getitem (losses_out out) "geo" = Ok f32_nan
    /\ total_loss out = f32_nan.
Proof.
  eexists. split; [vm_compute; reflexivity|].
  eapply (nan_loss_makes_the_total_nan ex_objects [] ex_point ex_encoder
            ex_decoder_nan ex_conf false (0 # 1)%Q 0 0 1 false false None 0
            _ ex_tree_B "geo").
  - right; right; right; left; reflexivity.
  - left; reflexivity.
  - vm_compute; reflexivity.
Defined.

(** * Further properties of the orchestrator *)

Section RunEdges.

Context {T : Type} `{Tensor T} {Geo Code Latent : Type}.

Local Abbreviation external_t := (@External T Geo Code Latent).
Local Abbreviation conf_t := (@Conf T).
Local Abbreviation event_t := (@Event T).

(** The world once both run directories exist and [rest] is left to read. *)
Local Abbreviation prepared rest w :=
  {| log_dir_exists := true; model_dir_exists := true; stdin := rest;
     randint := randint w; stage2_loads := stage2_loads w;
     encoder_net := encoder_net w; decoder_net := decoder_net w;
     pointencoder_net := pointencoder_net w; sched_steps := sched_steps w |}.

(** What [prepare_run_dirs] does, in full. *)
Lemma prepare_run_dirs_eq (w : World) :
  prepare_run_dirs (T := T) w =
  if log_dir_exists w || model_dir_exists w
  then match stdin w with
       | [] => (Raise EOFError, w, [])
       | response :: rest =>
           if String.eqb response "y"
           then (Ok tt, prepared rest w,
                 [EvInput]
                 ++ (if log_dir_exists w then [EvRmtree LogDir] else [])
                 ++ (if model_dir_exists w then [EvRmtree ModelDir] else [])
                 ++ [EvMakedirs ModelDir; EvMakedirs LogDir])
           else (Raise SystemExit, set_stdin rest w, [EvInput])
       end
  else (Ok tt, prepared (stdin w) w, [EvMakedirs ModelDir; EvMakedirs LogDir]).
Proof.
  destruct w as [ld md si ri s2 en de pe ss].
  destruct ld, md; try reflexivity;
    (destruct si as [|response rest]; [reflexivity|];
     cbv beta iota delta [prepare_run_dirs input bind get put emit ret raise
                            dir_exists log_dir_exists model_dir_exists stdin
                            orb];
     destruct (String.eqb response "y"); reflexivity).
Qed.

(** X7: the run directories.  Without an existing run nothing is read from
    the user and the model directory, then the log directory, are created.
    With an existing run and the answer [y], exactly the directories that
    exist are removed (log first) before both are created.  In both cases
    both directories exist afterwards.  With an existing run and no line to
    read the run ends with [EOFError] and nothing has changed. *)
Theorem run_directories_are_prepared (w : World) :
  (log_dir_exists w || model_dir_exists w = false ->
   prepare_run_dirs (T := T) w
   = (Ok tt, prepared (stdin w) w,
      [EvMakedirs ModelDir; EvMakedirs LogDir]))
  /\ (forall rest,
         log_dir_exists w || model_dir_exists w = true ->
         stdin w = "y" :: rest ->
         prepare_run_dirs (T := T) w
         = (Ok tt, prepared rest w,
            [EvInput]
            ++ (if log_dir_exists w then [EvRmtree LogDir] else [])
            ++ (if model_dir_exists w then [EvRmtree ModelDir] else [])
            ++ [EvMakedirs ModelDir; EvMakedirs LogDir]))
  /\ (log_dir_exists w || model_dir_exists w = true ->
      stdin w = [] ->
      prepare_run_dirs (T := T) w = (Raise EOFError, w, [])).
Proof.
  rewrite prepare_run_dirs_eq. split; [|split].
  - intros ->. reflexivity.
  - intros rest -> ->. reflexivity.
  - intros -> ->. reflexivity.
Qed.

(** A world in which [prepare_run_dirs] succeeds: no run exists, or the
    answer read is [y]. *)
Lemma prepare_run_dirs_Ok (w : World) :
  log_dir_exists w || model_dir_exists w = false
  \/ (exists rest, stdin w = "y" :: rest) ->
  exists rest tr,
    prepare_run_dirs (T := T) w = (Ok tt, prepared rest w, tr)
    /\ Forall (fun ev => is_dir_event ev = true) tr.
Proof.
  intros Hw. rewrite prepare_run_dirs_eq.
  destruct (log_dir_exists w || model_dir_exists w) eqn:Hex.
  - destruct Hw as [Hw|[rest Hrest]]; [discriminate|]. rewrite Hrest. cbn.
    exists rest. eexists. split; [reflexivity|].
    destruct (log_dir_exists w), (model_dir_exists w); cbn;
      repeat constructor.
  - exists (stdin w). eexists. split; [reflexivity|]. repeat constructor.
Qed.

Lemma dir_events_are_quiet (tr : list event_t) :
  Forall (fun ev => is_dir_event ev = true) tr ->
  Forall (fun ev => is_forward ev = false /\ is_save ev = false
                    /\ is_update ev = false) tr
  /\ ~ In EvCloseLog tr.
Proof.
  intros Htr; split.
  - eapply Forall_impl; [|exact Htr]. intros ev Hev.
    destruct ev; try discriminate; repeat split.
  - intros Hin. rewrite Forall_forall in Htr. specialize (Htr _ Hin).
    discriminate.
Qed.

(** X8: a stage-2 checkpoint that does not load under [strict=True] is
    fatal: the run ends with the checkpoint error after the run directories
    were created, the log opened, the seed set and the configuration saved,
    and before any optimizer is built; both directories are left in place.
    What precedes the opening of the log is the prompt and the removal and
    creation of directories, nothing else. *)
Theorem checkpoint_mismatch_is_fatal (ext : external_t) (conf : conf_t)
  (w : World) :
  stage2_loads w = false ->
  (log_dir_exists w || model_dir_exists w = false
   \/ exists rest, stdin w = "y" :: rest) ->
  exists w' pre,
    train ext conf w
    = (Raise CheckpointError, w',
       pre ++ [ EvOpenLog;
                EvSeed (if (seed conf <? 0)%Z then randint w else seed conf);
                EvSaveConf ])
    /\ log_dir_exists w' = true /\ model_dir_exists w' = true
    /\ Forall (fun ev => is_forward ev = false /\ is_save ev = false
                         /\ is_update ev = false) pre
    /\ Forall (fun ev => is_dir_event ev = true) pre.
Proof.
  intros Hload Hw.
  destruct (prepare_run_dirs_Ok w Hw) as (rest & tr & Hprep & Htr).
  unfold train. unfold bind at 1. rewrite Hprep.
  unfold bind at 1. rewrite init_run_eq. cbn [stage2_loads]. rewrite Hload.
  eexists; exists tr. split; [reflexivity|].
  split; [reflexivity|]. split; [reflexivity|].
  split; [apply dir_events_are_quiet; exact Htr | exact Htr].
Qed.

(** X9: with tensorboard logging switched off the writers are never bound:
    a run with at least one epoch and one training batch ends with
    [UnboundLocalError] on [train_writer] at its first training step, before
    any forward pass, update or checkpoint. *)
Theorem no_tb_log_stops_the_first_step (ext : external_t) (conf : conf_t)
  (w : World) :
  no_tb_log conf = true ->
  1 <= epochs conf ->
  1 <= num_batch (train_dataloader ext) ->
  stage2_loads w = true ->
  (log_dir_exists w || model_dir_exists w = false
   \/ exists rest, stdin w = "y" :: rest) ->
  exists w' tr,
    train ext conf w = (Raise (UnboundLocalError "train_writer"), w', tr)
    /\ Forall (fun ev => is_forward ev = false /\ is_save ev = false
                         /\ is_update ev = false) tr.
Proof.
  intros Htb He Hnt Hload Hw.
  destruct (prepare_run_dirs_Ok w Hw) as (rest & tr & Hprep & Htr).
  unfold train. unfold bind at 1. rewrite Hprep.
  unfold bind at 1. rewrite init_run_eq. cbn [stage2_loads].
  rewrite Hload, Htb.
  destruct (epochs conf) as [|e]; [lia|].
  cbn [seq for_epochs]. unfold bind at 1. unfold bind at 1.
  unfold train_epoch, enumerate.
  destruct (num_batch (train_dataloader ext)) as [|nt] eqn:Hn; [lia|].
  cbn [seq map for_train_batches]. unfold bind at 1.
  rewrite train_one_batch_eq.
  eexists; eexists. split; [reflexivity|].
  rewrite app_nil_r.
  apply Forall_app; split; [apply dir_events_are_quiet; exact Htr|].
  repeat constructor.
Qed.

(** X10: with no epoch to run, [train] sets the run up and then ends with
    [UnboundLocalError] on [epoch] at the final checkpoint: no checkpoint is
    saved and the log is not closed. *)
Theorem zero_epochs_fail_at_the_final_checkpoint (ext : external_t)
  (conf : conf_t) (w : World) :
  epochs conf = 0 ->
  stage2_loads w = true ->
  (log_dir_exists w || model_dir_exists w = false
   \/ exists rest, stdin w = "y" :: rest) ->
  exists w' tr,
    train ext conf w = (Raise (UnboundLocalError "epoch"), w', tr)
    /\ Forall (fun ev => is_forward ev = false /\ is_save ev = false
                         /\ is_update ev = false) tr
    /\ ~ In EvCloseLog tr.
Proof.
  intros He Hload Hw.
  destruct (prepare_run_dirs_Ok w Hw) as (rest & tr & Hprep & Htr).
  unfold train. unfold bind at 1. rewrite Hprep.
  unfold bind at 1. rewrite init_run_eq. cbn [stage2_loads].
  rewrite Hload, He. cbn [seq for_epochs].
  unfold bind at 1. cbn [ret final_checkpoint raise].
  eexists; eexists. split; [reflexivity|].
  destruct (dir_events_are_quiet tr Htr) as [Hquiet Hclose]. split.
  - apply Forall_app; split; [exact Hquiet|].
    destruct (no_tb_log conf); cbn; repeat constructor.
  - intros Hin. apply in_app_or in Hin as [Hin|Hin]; [now apply Hclose|].
    destruct (no_tb_log conf); cbn in Hin; intuition discriminate.
Qed.

End RunEdges.

Lemma run_directories_witness :
  prepare_run_dirs (T := f32) (ex_world "y")
  = (Ok tt,
     {| log_dir_exists := true; model_dir_exists := true; stdin := [];
        randint := 42; stage2_loads := true; encoder_net := ex_net;
        decoder_net := ex_net; pointencoder_net := ex_net;
        sched_steps := 0 |},
     [EvInput; EvRmtree LogDir; EvMakedirs ModelDir; EvMakedirs LogDir]).
Proof.
  apply (proj1 (proj2 (run_directories_are_prepared (T := f32)
                         (ex_world "y"))) []); reflexivity.
Defined.

Lemma checkpoint_mismatch_witness :
  exists w' pre,
    train ex_external ex_conf ex_world_mismatch
    = (Raise CheckpointError, w',
       pre ++ [EvOpenLog; EvSeed 3; EvSaveConf])
    /\ log_dir_exists w' = true /\ model_dir_exists w' = true
    /\ Forall (fun ev => is_forward ev = false /\ is_save ev = false
                         /\ is_update ev = false) pre
    /\ Forall (fun ev => is_dir_event ev = true) pre.
Proof.
  apply (checkpoint_mismatch_is_fatal ex_external ex_conf ex_world_mismatch);
    [reflexivity | left; reflexivity].
Defined.

Lemma no_tb_log_witness :
  exists w' tr,
    train ex_external ex_conf_no_tb ex_world_fresh
    = (Raise (UnboundLocalError "train_writer"), w', tr)
    /\ Forall (fun ev => is_forward ev = false /\ is_save ev = false
                         /\ is_update ev = false) tr.
Proof.
  apply (no_tb_log_stops_the_first_step ex_external ex_conf_no_tb
           ex_world_fresh);
    [reflexivity | cbn; lia | vm_compute; lia | reflexivity
    | left; reflexivity].
Defined.

Lemma zero_epochs_witness :
  exists w' tr,
    train ex_external ex_conf_no_epochs ex_world_fresh
    = (Raise (UnboundLocalError "epoch"), w', tr)
    /\ Forall (fun ev => is_forward ev = false /\ is_save ev = false
                         /\ is_update ev = false) tr
    /\ ~ In EvCloseLog tr.
Proof.
  apply (zero_epochs_fail_at_the_final_checkpoint ex_external
           ex_conf_no_epochs ex_world_fresh);
    [reflexivity | reflexivity | left; reflexivity].
Defined.

(** * What the epochs keep *)

Section LoopInvariant.

Context {T : Type} `{Tensor T} {Geo Code Latent : Type}.

Local Abbreviation external_t := (@External T Geo Code Latent).
Local Abbreviation conf_t := (@Conf T).
Local Abbreviation event_t := (@Event T).

Variables (ext : external_t) (conf : conf_t) (models : list Component)
  (opt : Optimizer) (tw vw : option unit).

(** A property [Q] of a stretch of a run (the world before, the world after,
    the events in between) that holds of the empty stretch, of two stretches
    put end to end, and of each elementary action of the batch loops, for the
    epochs in [E]. *)
Variable E : nat -> Prop.
Variable Q : World -> World -> list event_t -> Prop.

Hypothesis Q_nil : forall w, Q w w [].
Hypothesis Q_app :
  forall w w1 w2 t1 t2, Q w w1 t1 -> Q w1 w2 t2 -> Q w w2 (t1 ++ t2).
Hypothesis Q_eval : forall c w, Q w (set_eval c w) [].
Hypothesis Q_valdt_forward :
  forall w e i, E e -> Q w w [EvForward true e i].
Hypothesis Q_train_forward :
  forall w e i, E e -> Q w w [EvForward false e i].
Hypothesis Q_step :
  forall w e i loss save,
    E e ->
    Q w (set_sched_steps (S (sched_steps w)) w)
      (step_events opt e i loss save).

Lemma eval_all_Q (ms : list Component) :
  forall w, Q w (eval_all ms w) [].
Proof.
  induction ms as [|c ms IH]; intros w; [apply Q_nil|].
  exact (Q_app _ _ _ [] [] (Q_eval c w) (IH (set_eval c w))).
Qed.

Lemma valdt_loop_Q (epoch nt nv : nat) :
  E epoch ->
  forall vb l w,
    match valdt_loop ext conf models vw epoch nt nv vb l w with
    | (r, w', tr) => Q w w' tr
    end.
Proof.
  intros He. induction vb as [|[ind batch] rest IH]; intros l w.
  - cbn [valdt_loop]. destruct (_ && _); apply Q_nil.
  - destruct (f64_leb (valdt_fraction_done l) (train_fraction_done l)
              && (valdt_batch_ind l + 1 <? Z.of_nat nv)%Z) eqn:Hg.
    2:{ cbn [valdt_loop]. rewrite Hg. apply Q_nil. }
    destruct nv as [|nv'].
    { cbn [valdt_loop]. rewrite Hg. unfold bind at 1. apply Q_nil. }
    destruct (valdt_loop_cons ext conf models vw epoch nt (S nv') ind batch
                rest l w Hg ltac:(discriminate))
      as (l' & _ & _ & _ & ->).
    cbv zeta.
    assert (Hev : Q w (set_eval CPointEncoder (eval_all models w)) [])
      by exact (Q_app _ _ _ [] [] (eval_all_Q models w) (Q_eval _ _)).
    destruct vw as [wr|]; [|exact Hev].
    rewrite call_forward_eq.
    destruct (forward _ _ _ _ _ _ _ _ _ _ _ _ _ _ _) as [out|e].
    + specialize (IH l' (set_eval CPointEncoder (eval_all models w))).
      destruct (valdt_loop ext conf models (Some wr) epoch nt (S nv') rest l'
                  (set_eval CPointEncoder (eval_all models w)))
        as [[r w2] t2].
      exact (Q_app _ _ _ [] (EvForward true epoch ind :: t2) Hev
               (Q_app _ _ _ [EvForward true epoch ind] t2
                  (Q_valdt_forward _ epoch ind He) IH)).
    + exact (Q_app _ _ _ [] [EvForward true epoch ind] Hev
               (Q_valdt_forward _ epoch ind He)).
Qed.

Lemma for_train_batches_Q (epoch nt nv : nat) :
  E epoch ->
  forall tbs vb l w,
    match for_train_batches ext conf models opt tw vw epoch nt nv tbs vb l w
    with
    | (r, w', tr) => Q w w' tr
    end.
Proof.
  intros He. induction tbs as [|[i batch] rest IH]; intros vb l w.
  - apply Q_nil.
  - cbn [for_train_batches]. unfold bind at 1. rewrite train_one_batch_eq.
    destruct nt as [|nt']; [apply Q_nil|].
    destruct tw as [wr|]; [|apply Q_nil]. cbv zeta.
    destruct (forward _ _ _ _ _ _ _ _ _ _ _ _ _ _ _) as [out|e];
      [|apply Q_train_forward; exact He].
    set (l1 := {| last_checkpoint_step := _ |}).
    unfold bind at 1.
    pose proof (valdt_loop_Q epoch (S nt') nv He vb l1
                  (set_sched_steps (S (sched_steps w)) w)) as Hv.
    destruct (valdt_loop ext conf models vw epoch (S nt') nv vb l1
                (set_sched_steps (S (sched_steps w)) w)) as [[r2 w2] t2].
    pose proof (Q_step w epoch i (total_loss out)
                  (checkpoint_due conf l (train_step_of epoch (S nt') i)) He)
      as Hs.
    destruct r2 as [[l2 vb2]|e2]; [|exact (Q_app _ _ _ _ _ Hs Hv)].
    specialize (IH vb2 l2 w2). cbn [fst snd].
    destruct (for_train_batches ext conf models opt (Some wr) vw epoch
                (S nt') nv rest vb2 l2 w2) as [[r3 w3] t3].
    rewrite app_assoc.
    exact (Q_app _ _ _ _ _ (Q_app _ _ _ _ _ Hs Hv) IH).
Qed.

Lemma for_epochs_Q (range : list nat) :
  Forall E range ->
  forall last l w,
    match for_epochs ext conf models opt tw vw range last l w with
    | (r, w', tr) => Q w w' tr
    end.
Proof.
  induction range as [|e range IH]; intros HE last l w; [apply Q_nil|].
  inversion HE as [|? ? He HE']; subst.
  cbn [for_epochs]. unfold bind at 1. unfold train_epoch.
  match goal with
  | |- context [for_train_batches ?a ?b ?c ?d ?t ?v ?ep ?n1 ?n2 ?tb ?vb ?l0 ?w0]
    => pose proof (for_train_batches_Q ep n1 n2 He tb vb l0 w0) as Hep;
       destruct (for_train_batches a b c d t v ep n1 n2 tb vb l0 w0)
         as [[r1 w1] t1]
  end.
  destruct r1 as [l1|e1]; [|exact Hep].
  specialize (IH HE' (Some e) l1 w1).
  destruct (for_epochs ext conf models opt tw vw range (Some e) l1 w1)
    as [[r2 w2] t2].
  exact (Q_app _ _ _ _ _ Hep IH).
Qed.

End LoopInvariant.

Section EpochFacts.

Context {T : Type} `{Tensor T} {Geo Code Latent : Type}.

Local Abbreviation external_t := (@External T Geo Code Latent).
Local Abbreviation conf_t := (@Conf T).
Local Abbreviation event_t := (@Event T).

Lemma world_step_refl (w : World) : world_step w w.
Proof. unfold world_step; repeat split; auto. Qed.

Lemma world_step_trans (w w1 w2 : World) :
  world_step w w1 -> world_step w1 w2 -> world_step w w2.
Proof.
  intros (Hl & Hm & Hs & Hg & Ht & Hn) (Hl' & Hm' & Hs' & Hg' & Ht' & Hn').
  unfold world_step.
  split; [congruence|]. split; [congruence|]. split; [congruence|].
  split; [intros c; rewrite (Hg' c); apply Hg|].
  split; [intros c Hc; now apply Ht', Ht | lia].
Qed.

Lemma world_step_eval (c : Component) (w : World) :
  world_step w (set_eval c w).
Proof.
  unfold world_step.
  split; [reflexivity|]. split; [reflexivity|]. split; [reflexivity|].
  split; [intros c'; destruct c, c'; reflexivity|].
  split; [intros c' Hc; destruct c, c'; cbn in *; congruence | cbn; lia].
Qed.

Lemma world_step_sched (w : World) :
  world_step w (set_sched_steps (S (sched_steps w)) w).
Proof.
  unfold world_step.
  split; [reflexivity|]. split; [reflexivity|]. split; [reflexivity|].
  split; [intros c; destruct c; reflexivity|].
  split; [intros c Hc; destruct c; exact Hc | cbn; lia].
Qed.

Lemma for_epochs_world_step (ext : external_t) (conf : conf_t)
  (models : list Component) (opt : Optimizer) (tw vw : option unit)
  (range : list nat) (last : option nat) (l : Locals) (w : World) :
  match for_epochs ext conf models opt tw vw range last l w with
  | (r, w', tr) => world_step w w'
  end.
Proof.
  apply (for_epochs_Q ext conf models opt tw vw (fun _ => True)
           (fun w w' _ => world_step w w')).
  - exact world_step_refl.
  - intros w0 w1 w2 _ _; apply world_step_trans.
  - exact world_step_eval.
  - intros; apply world_step_refl.
  - intros; apply world_step_refl.
  - intros; apply world_step_sched.
  - apply Forall_forall; intros; exact I.
Qed.

(** X12: whatever the epochs do, and however they end, they leave the two
    run directories and the input as they were, change no gradient flag,
    never put a network that is in evaluation mode back into training mode,
    and never move the scheduler backwards. *)
Theorem epochs_keep_directories_and_gradient_flags (ext : external_t)
  (conf : conf_t) (models : list Component) (opt : Optimizer)
  (tw vw : option unit) (range : list nat) (last : option nat) (l : Locals)
  (w : World) :
  match for_epochs ext conf models opt tw vw range last l w with
  | (r, w', tr) =>
      log_dir_exists w' = log_dir_exists w
      /\ model_dir_exists w' = model_dir_exists w
      /\ stdin w' = stdin w
      /\ (forall c, requires_grad (net_of c w') = requires_grad (net_of c w))
      /\ (forall c, training (net_of c w) = false ->
                    training (net_of c w') = false)
      /\ sched_steps w <= sched_steps w'
  end.
Proof. exact (for_epochs_world_step ext conf models opt tw vw range last l w). Qed.

(** X13: every event of the epochs is a forward pass of one of the epochs,
    an update event, or a checkpoint, and every such checkpoint holds the
    point encoder alone, under the name [pointencoder], with the optimizer
    [point_opt], and is tagged with the number of one of the epochs: the
    structure encoder and decoder are in no epoch checkpoint, and the epochs
    neither prompt nor remove nor create a directory. *)
Theorem epoch_checkpoints_hold_the_point_encoder_alone (ext : external_t)
  (conf : conf_t) (models : list Component) (opt : Optimizer)
  (tw vw : option unit) (range : list nat) (last : option nat) (l : Locals)
  (w : World) :
  match for_epochs ext conf models opt tw vw range last l w with
  | (r, w', tr) => Forall (epoch_event opt (fun e => In e range)) tr
  end.
Proof.
  apply (for_epochs_Q ext conf models opt tw vw (fun e => In e range)
           (fun _ _ tr => Forall (epoch_event opt (fun e => In e range)) tr)).
  - intros _; constructor.
  - intros _ _ _ t1 t2 H1 H2. apply Forall_app; now split.
  - intros _ _; constructor.
  - intros _ e i He. constructor; [exact He | constructor].
  - intros _ e i He. constructor; [exact He | constructor].
  - intros _ e i loss save He. unfold step_events.
    destruct save; cbn; repeat constructor; exact He.
  - apply Forall_forall. intros e He; exact He.
Qed.

(** X14: a run of [train] that gets past its set-up ends, however it ends,
    with the structure encoder and the decoder in evaluation mode and
    without gradient, the point encoder still requiring gradient, and both
    run directories in place. *)
Theorem frozen_networks_stay_frozen (ext : external_t) (conf : conf_t)
  (w : World) :
  stage2_loads w = true ->
  (log_dir_exists w || model_dir_exists w = false
   \/ exists rest, stdin w = "y" :: rest) ->
  match train ext conf w with
  | (r, w', tr) =>
      encoder_net w' = {| training := false; requires_grad := false |}
      /\ decoder_net w' = {| training := false; requires_grad := false |}
      /\ requires_grad (pointencoder_net w') = true
      /\ log_dir_exists w' = true /\ model_dir_exists w' = true
  end.
Proof.
  intros Hload Hw. unfold train. unfold bind at 1.
  rewrite prepare_run_dirs_eq.
  assert (Hprep : exists rest tr0,
             (if log_dir_exists w || model_dir_exists w
              then match stdin w with
                   | [] => (Raise EOFError, w, [])
                   | response :: rest =>
                       if String.eqb response "y"
                       then (Ok tt,
                             {| log_dir_exists := true;
                                model_dir_exists := true; stdin := rest;
                                randint := randint w;
                                stage2_loads := stage2_loads w;
                                encoder_net := encoder_net w;
                                decoder_net := decoder_net w;
                                pointencoder_net := pointencoder_net w;
                                sched_steps := sched_steps w |},
                             [EvInput]
                             ++ (if log_dir_exists w
                                 then [EvRmtree LogDir] else [])
                             ++ (if model_dir_exists w
                                 then [EvRmtree ModelDir] else [])
                             ++ [EvMakedirs ModelDir; EvMakedirs LogDir])
                       else (Raise SystemExit, set_stdin rest w, [EvInput])
                   end
              else (Ok tt,
                    {| log_dir_exists := true; model_dir_exists := true;
                       stdin := stdin w; randint := randint w;
                       stage2_loads := stage2_loads w;
                       encoder_net := encoder_net w;
                       decoder_net := decoder_net w;
                       pointencoder_net := pointencoder_net w;
                       sched_steps := sched_steps w |},
                    [EvMakedirs ModelDir; EvMakedirs LogDir]))
             = (Ok tt,
                {| log_dir_exists := true; model_dir_exists := true;
                   stdin := rest; randint := randint w;
                   stage2_loads := stage2_loads w;
                   encoder_net := encoder_net w;
                   decoder_net := decoder_net w;
                   pointencoder_net := pointencoder_net w;
                   sched_steps := sched_steps w |}, tr0 : list event_t)).
  { destruct (log_dir_exists w || model_dir_exists w).
    - destruct Hw as [Hw|[rest Hrest]]; [discriminate|]. rewrite Hrest.
      cbn. eauto.
    - eauto. }
  destruct Hprep as (rest & tr0 & ->).
  unfold bind at 1. rewrite init_run_eq. cbn [stage2_loads]. rewrite Hload.
  unfold bind at 1.
  match goal with
  | |- context [for_epochs ?a ?b ?c ?d ?t ?v ?rg ?la ?l0 ?w0] =>
      pose proof (for_epochs_world_step a b c d t v rg la l0 w0) as Hstep;
      destruct (for_epochs a b c d t v rg la l0 w0) as [[r1 w1] t1]
  end.
  destruct Hstep as (Hl & Hm & _ & Hg & Ht & _).
  pose proof (Hg CEncoder) as Hge. pose proof (Hg CDecoder) as Hgd.
  pose proof (Hg CPointEncoder) as Hgp.
  pose proof (Ht CEncoder eq_refl) as Hte.
  pose proof (Ht CDecoder eq_refl) as Htd.
  cbn in Hl, Hm, Hge, Hgd, Hgp, Hte, Htd.
  assert (Hfin : encoder_net w1
                 = {| training := false; requires_grad := false |}
                 /\ decoder_net w1
                    = {| training := false; requires_grad := false |}
                 /\ requires_grad (pointencoder_net w1) = true
                 /\ log_dir_exists w1 = true /\ model_dir_exists w1 = true).
  { destruct (encoder_net w1), (decoder_net w1); cbn in *.
    repeat split; congruence. }
  destruct r1 as [[epoch|]|e1]; cbn; exact Hfin.
Qed.

End EpochFacts.

Lemma frozen_networks_witness :
  match train ex_external ex_conf (ex_world "y") with
  | (r, w', tr) =>
      encoder_net w' = {| training := false; requires_grad := false |}
      /\ decoder_net w' = {| training := false; requires_grad := false |}
      /\ requires_grad (pointencoder_net w') = true
      /\ log_dir_exists w' = true /\ model_dir_exists w' = true
  end.
Proof.
  apply (frozen_networks_stay_frozen ex_external ex_conf (ex_world "y"));
    [reflexivity | right; exists []; reflexivity].
Defined.

(** * The training side of an epoch *)

Section TrainingSide.

Context {T : Type} `{Tensor T} {Geo Code Latent : Type}.

Local Abbreviation external_t := (@External T Geo Code Latent).
Local Abbreviation conf_t := (@Conf T).
Local Abbreviation event_t := (@Event T).

Lemma train_visited_app (t1 t2 : list event_t) :
  train_visited (t1 ++ t2) = train_visited t1 ++ train_visited t2.
Proof.
  induction t1 as [|ev t1 IH]; [reflexivity|].
  destruct ev as [| | | | | | | | | |[|] e i| | | | | |]; cbn;
    now rewrite IH.
Qed.

Lemma count_events_app (p : event_t -> bool) (t1 t2 : list event_t) :
  count_events p (t1 ++ t2) = count_events p t1 + count_events p t2.
Proof. unfold count_events. now rewrite filter_app, length_app. Qed.

Lemma valdt_forwards_are_no_training (tr : list event_t) :
  Forall (fun ev => is_valdt_forward ev = true) tr ->
  train_visited tr = []
  /\ count_events is_opt_step tr = 0 /\ count_events is_sched_step tr = 0
  /\ count_events is_zero_grad tr = 0 /\ count_events is_backward tr = 0.
Proof.
  induction 1 as [|ev tr Hev _ IH]; [repeat split|].
  destruct ev as [| | | | | | | | | |[|] e i| | | | | |]; try discriminate.
  exact IH.
Qed.

Lemma valdt_loop_is_no_training (ext : external_t) (conf : conf_t)
  (models : list Component) (vw : option unit) (epoch nt nv : nat)
  (vb : list (nat * list (list (@Obj Geo)))) (l : Locals) (w : World) :
  match valdt_loop ext conf models vw epoch nt nv vb l w with
  | (r, w', tr) =>
      sched_steps w' = sched_steps w
      /\ Forall (fun ev => is_valdt_forward ev = true) tr
  end.
Proof.
  apply (valdt_loop_Q ext conf models vw (fun _ => True)
           (fun w w' tr =>
              sched_steps w' = sched_steps w
              /\ Forall (fun ev => is_valdt_forward ev = true) tr)).
  - intros w0; split; [reflexivity | constructor].
  - intros w0 w1 w2 t1 t2 [H1 F1] [H2 F2]. split; [congruence|].
    apply Forall_app; now split.
  - intros c w0; split; [destruct c; reflexivity | constructor].
  - intros w0 e i _; split; [reflexivity | repeat constructor].
  - exact I.
Qed.

(** The loop over the training batches [i .. i+k-1], whatever the state of
    the validation iterator. *)
Lemma for_train_batches_training_side (ext : external_t) (conf : conf_t)
  (models : list Component) (opt : Optimizer) (tw vw : option unit)
  (epoch nt nv : nat) (g : nat -> list (list (@Obj Geo))) :
  forall k i vb l w,
    match for_train_batches ext conf models opt tw vw epoch nt nv
            (map (fun i => (i, g i)) (seq i k)) vb l w with
    | (r, w', tr) =>
        exists q,
          q <= k
          /\ train_visited tr = seq i q
          /\ (is_ok r = true ->
              q = k
              /\ sched_steps w' = sched_steps w + k
              /\ count_events is_opt_step tr = k
              /\ count_events is_sched_step tr = k
              /\ count_events is_zero_grad tr = k
              /\ count_events is_backward tr = k)
    end.
Proof.
  induction k as [|k IH]; intros i vb l w.
  - exists 0. cbn. split; [lia|]. split; [reflexivity|]. intros _.
    unfold count_events; cbn. repeat split; lia.
  - cbn [seq map for_train_batches]. unfold bind at 1.
    rewrite train_one_batch_eq.
    destruct nt as [|nt'];
      [exists 0; split; [lia|]; split; [reflexivity | discriminate]|].
    destruct tw as [wr|];
      [|exists 0; split; [lia|]; split; [reflexivity | discriminate]].
    cbv zeta.
    destruct (forward _ _ _ _ _ _ _ _ _ _ _ _ _ _ _) as [out|e].
    2:{ exists 1. split; [lia|]. split; [reflexivity | discriminate]. }
    set (l1 := {| last_checkpoint_step := _ |}).
    set (w1 := set_sched_steps (S (sched_steps w)) w).
    set (t1 := step_events opt epoch i (total_loss out) _).
    assert (Ht1 : train_visited t1 = [i]
                  /\ count_events is_opt_step t1 = 1
                  /\ count_events is_sched_step t1 = 1
                  /\ count_events is_zero_grad t1 = 1
                  /\ count_events is_backward t1 = 1)
      by (unfold t1, step_events;
          destruct (checkpoint_due conf l (train_step_of epoch (S nt') i));
          repeat split).
    destruct Ht1 as (Hv1 & Ho1 & Hs1 & Hz1 & Hb1).
    unfold bind at 1.
    pose proof (valdt_loop_is_no_training ext conf models vw epoch (S nt') nv
                  vb l1 w1) as Hv.
    destruct (valdt_loop ext conf models vw epoch (S nt') nv vb l1 w1)
      as [[r2 w2] t2].
    destruct Hv as [Hsched2 Hfor2].
    destruct (valdt_forwards_are_no_training t2 Hfor2)
      as (Hv2 & Ho2 & Hs2 & Hz2 & Hb2).
    destruct r2 as [[l2 vb2]|e2].
    2:{ exists 1. split; [lia|]. split; [|discriminate].
        now rewrite train_visited_app, Hv1, Hv2. }
    cbn [fst snd]. specialize (IH (S i) vb2 l2 w2).
    destruct (for_train_batches ext conf models opt (Some wr) vw epoch
                (S nt') nv (map (fun i0 => (i0, g i0)) (seq (S i) k)) vb2 l2
                w2) as [[r3 w3] t3].
    destruct IH as (q & Hq & Hv3 & Hok3).
    exists (S q). split; [lia|]. split.
    { now rewrite !train_visited_app, Hv1, Hv2, Hv3. }
    intros Hok. destruct (Hok3 Hok) as (-> & Hsc & Ho3 & Hs3 & Hz3 & Hb3).
    rewrite !count_events_app, Ho1, Ho2, Ho3, Hs1, Hs2, Hs3, Hz1, Hz2, Hz3,
      Hb1, Hb2, Hb3, Hsc, Hsched2.
    unfold w1; cbn [sched_steps set_sched_steps]. repeat split; lia.
Qed.

(** X15: in an epoch the training batches are passed to [forward] in the
    order of the loader, none twice; and an epoch that runs to its end has
    visited every training batch and done exactly one optimizer step, one
    scheduler step, one zeroing of the gradients and one backward pass per
    training batch: the learning-rate schedule advances by the number of
    batches, not by one, per epoch. *)
Theorem one_update_per_training_batch (ext : external_t) (conf : conf_t)
  (models : list Component) (opt : Optimizer) (tw vw : option unit)
  (epoch : nat) (l : Locals) (w : World) :
  match train_epoch ext conf models opt tw vw epoch l w with
  | (r, w', tr) =>
      (exists q, q <= num_batch (train_dataloader ext)
                 /\ train_visited tr = seq 0 q)
      /\ (is_ok r = true ->
          train_visited tr = seq 0 (num_batch (train_dataloader ext))
          /\ sched_steps w'
             = sched_steps w + num_batch (train_dataloader ext)
          /\ count_events is_opt_step tr = num_batch (train_dataloader ext)
          /\ count_events is_sched_step tr
             = num_batch (train_dataloader ext)
          /\ count_events is_zero_grad tr
             = num_batch (train_dataloader ext)
          /\ count_events is_backward tr
             = num_batch (train_dataloader ext))
  end.
Proof.
  unfold train_epoch, enumerate.
  match goal with
  | |- context [for_train_batches ?a ?b ?c ?d ?t ?v ?ep ?n1 ?n2
                  (map ?f (seq 0 ?k)) ?vb ?l0 ?w0] =>
      pose proof (for_train_batches_training_side a b c d t v ep n1 n2
                    (batch_at (train_dataloader ext) epoch) k 0 vb l0 w0)
        as Hs;
      destruct (for_train_batches a b c d t v ep n1 n2 (map f (seq 0 k)) vb
                  l0 w0) as [[r w'] tr]
  end.
  destruct Hs as (q & Hq & Hvis & Hok). split; [now exists q|].
  intros Hr. destruct (Hok Hr) as (-> & Hrest). split; [exact Hvis|].
  exact Hrest.
Qed.

End TrainingSide.

Lemma one_update_witness :
  train_visited
    (snd (train_epoch ex_external ex_conf [CEncoder; CDecoder]
            {| opt_params := CEncoder |} (Some tt) (Some tt) 0
            initial_locals (ex_world "y")))
  = seq 0 2
  /\ sched_steps
       (snd (fst (train_epoch ex_external ex_conf [CEncoder; CDecoder]
                    {| opt_params := CEncoder |} (Some tt) (Some tt) 0
                    initial_locals (ex_world "y"))))
     = 2.
Proof.
  pose proof (one_update_per_training_batch ex_external ex_conf
                [CEncoder; CDecoder] {| opt_params := CEncoder |} (Some tt)
                (Some tt) 0 initial_locals (ex_world "y")) as Hw.
  destruct (train_epoch ex_external ex_conf [CEncoder; CDecoder]
              {| opt_params := CEncoder |} (Some tt) (Some tt) 0
              initial_locals (ex_world "y")) as [[r w'] tr] eqn:Hrun.
  assert (Hr : is_ok r = true).
  { vm_compute in Hrun. injection Hrun as <- _ _. reflexivity. }
  destruct Hw as (_ & Hok). destruct (Hok Hr) as (Hv & Hs & _).
  split; [exact Hv | exact Hs].
Defined.

(** * The cadence of the epoch checkpoints *)

Section CheckpointCadence.

Context {T : Type} `{Tensor T} {Geo Code Latent : Type}.

Local Abbreviation external_t := (@External T Geo Code Latent).
Local Abbreviation conf_t := (@Conf T).
Local Abbreviation event_t := (@Event T).

Lemma when_due_app (interval : Z) (nt : nat) (t1 t2 : list event_t)
  (a b c : option Z) :
  checkpoints_when_due interval nt a t1 b ->
  checkpoints_when_due interval nt b t2 c ->
  checkpoints_when_due interval nt a (t1 ++ t2) c.
Proof.
  intros H1 H2. induction H1; cbn [app].
  - exact H2.
  - apply when_due_saved; auto.
  - apply when_due_skipped; auto.
  - apply when_due_other; auto.
Qed.

Lemma when_due_validation (interval : Z) (nt : nat) (a : option Z)
  (tr : list event_t) :
  Forall (fun ev => is_valdt_forward ev = true) tr ->
  checkpoints_when_due interval nt a tr a.
Proof.
  induction 1 as [|ev tr Hev _ IH]; [constructor|].
  apply when_due_other; [| |exact IH];
    destruct ev as [| | | | | | | | | |[|] e i| | | | | |];
    try discriminate; reflexivity.
Qed.

(** The validation loop leaves the step of the last checkpoint as it is. *)
Lemma valdt_loop_keeps_checkpoint_step (ext : external_t) (conf : conf_t)
  (models : list Component) (vw : option unit) (epoch nt nv : nat)
  (vb : list (nat * list (list (@Obj Geo)))) :
  forall l w,
    match valdt_loop ext conf models vw epoch nt nv vb l w with
    | (Ok (l', _), _, _) => last_checkpoint_step l' = last_checkpoint_step l
    | (Raise _, _, _) => True
    end.
Proof.
  induction vb as [|[ind batch] rest IH]; intros l w; cbn [valdt_loop].
  - destruct (_ && _); cbn; [exact I | reflexivity].
  - destruct (_ && _); [|reflexivity].
    unfold bind at 1. destruct nv as [|nv']; [exact I|].
    cbn [lift true_div].
    unfold bind at 1. rewrite for_each_eval.
    unfold bind at 1. cbn [eval bind get put].
    unfold bind at 1. rewrite call_forward_eq.
    destruct vw as [wr|]; [|exact I].
    destruct (forward _ _ _ _ _ _ _ _ _ _ _ _ _ _ _) as [out|e]; [|exact I].
    match goal with
    | |- context [valdt_loop ?a ?b ?c ?d ?e ?f ?g rest ?l0 ?w0] =>
        specialize (IH l0 w0);
        destruct (valdt_loop a b c d e f g rest l0 w0)
          as [[[[l2 vb2]|e2] w2] t2]
    end; [exact IH | exact I].
Qed.

Lemma for_train_batches_cadence (ext : external_t) (conf : conf_t)
  (models : list Component) (opt : Optimizer) (tw vw : option unit)
  (epoch nt nv : nat) :
  forall tbs vb l w,
    match for_train_batches ext conf models opt tw vw epoch nt nv tbs vb l w
    with
    | (r, w', tr) =>
        exists last',
          checkpoints_when_due (checkpoint_interval conf) nt
            (last_checkpoint_step l) tr last'
          /\ match r with
             | Ok l' => last_checkpoint_step l' = last'
             | Raise _ => True
             end
    end.
Proof.
  induction tbs as [|[i batch] rest IH]; intros vb l w.
  - exists (last_checkpoint_step l). split; [constructor | reflexivity].
  - cbn [for_train_batches]. unfold bind at 1. rewrite train_one_batch_eq.
    destruct nt as [|nt'];
      [exists (last_checkpoint_step l); split; [constructor | exact I]|].
    destruct tw as [wr|];
      [|exists (last_checkpoint_step l); split; [constructor | exact I]].
    cbv zeta.
    destruct (forward _ _ _ _ _ _ _ _ _ _ _ _ _ _ _) as [out|e].
    2:{ exists (last_checkpoint_step l). split; [|exact I].
        apply when_due_other; [reflexivity | reflexivity | constructor]. }
    set (step := train_step_of epoch (S nt') i).
    set (l1 := {| last_checkpoint_step := _ |}).
    set (w1 := set_sched_steps (S (sched_steps w)) w).
    assert (Ht1 : checkpoints_when_due (checkpoint_interval conf) (S nt')
                    (last_checkpoint_step l)
                    (step_events opt epoch i (total_loss out)
                       (checkpoint_due conf l step))
                    (last_checkpoint_step l1)).
    { unfold l1, step_events; cbn [last_checkpoint_step].
      destruct (checkpoint_due conf l step) eqn:Hdue; cbn [app].
      - apply when_due_saved; [exact Hdue | constructor].
      - apply when_due_skipped; [exact Hdue | constructor]. }
    unfold bind at 1.
    pose proof (valdt_loop_keeps_checkpoint_step ext conf models vw epoch
                  (S nt') nv vb l1 w1) as Hkeep.
    pose proof (valdt_loop_is_no_training ext conf models vw epoch (S nt') nv
                  vb l1 w1) as Hv.
    destruct (valdt_loop ext conf models vw epoch (S nt') nv vb l1 w1)
      as [[r2 w2] t2].
    destruct Hv as [_ Hfor2].
    pose proof (when_due_validation (checkpoint_interval conf) (S nt')
                  (last_checkpoint_step l1) t2 Hfor2) as Ht2.
    destruct r2 as [[l2 vb2]|e2].
    2:{ exists (last_checkpoint_step l1). split; [|exact I].
        exact (when_due_app _ _ _ _ _ _ _ Ht1 Ht2). }
    cbn [fst snd]. specialize (IH vb2 l2 w2).
    destruct (for_train_batches ext conf models opt (Some wr) vw epoch
                (S nt') nv rest vb2 l2 w2) as [[r3 w3] t3].
    destruct IH as (last' & Ht3 & Hl3). rewrite Hkeep in Ht3.
    exists last'. split; [|exact Hl3].
    rewrite app_assoc.
    exact (when_due_app _ _ _ _ _ _ _
             (when_due_app _ _ _ _ _ _ _ Ht1 Ht2) Ht3).
Qed.

(** X16: over all the epochs of a run, a checkpoint of the point encoder is
    taken right after the backward pass of a training step exactly when no
    checkpoint was taken before or at least [checkpoint_interval] training
    steps have passed since the last one: the first completed training step
    always saves, two checkpoints are never closer than the interval, and no
    step at which a checkpoint is due goes without one. *)
Theorem epoch_checkpoints_follow_the_interval (ext : external_t)
  (conf : conf_t) (models : list Component) (opt : Optimizer)
  (tw vw : option unit) (range : list nat) :
  forall last l w,
    match for_epochs ext conf models opt tw vw range last l w with
    | (r, w', tr) =>
        exists last',
          checkpoints_when_due (checkpoint_interval conf)
            (num_batch (train_dataloader ext)) (last_checkpoint_step l) tr
            last'
    end.
Proof.
  induction range as [|e range IH]; intros last l w.
  - exists (last_checkpoint_step l). constructor.
  - cbn [for_epochs]. unfold bind at 1. unfold train_epoch.
    match goal with
    | |- context [for_train_batches ?a ?b ?c ?d ?t ?v ?ep ?n1 ?n2 ?tbs ?vb
                    ?l0 ?w0] =>
        pose proof (for_train_batches_cadence a b c d t v ep n1 n2 tbs vb l0
                      w0) as Hep;
        destruct (for_train_batches a b c d t v ep n1 n2 tbs vb l0 w0)
          as [[r1 w1] t1]
    end.
    destruct Hep as (last1 & Ht1 & Hl1). cbn [last_checkpoint_step] in Ht1.
    destruct r1 as [l1|e1]; [|now exists last1].
    specialize (IH (Some e) l1 w1).
    destruct (for_epochs ext conf models opt tw vw range (Some e) l1 w1)
      as [[r2 w2] t2].
    destruct IH as (last2 & Ht2). rewrite Hl1 in Ht2.
    exists last2. exact (when_due_app _ _ _ _ _ _ _ Ht1 Ht2).
Qed.

End CheckpointCadence.

(** * The mode of the point encoder *)

Section PointEncoderMode.

Context {T : Type} `{Tensor T} {Geo Code Latent : Type}.

Local Abbreviation external_t := (@External T Geo Code Latent).
Local Abbreviation conf_t := (@Conf T).
Local Abbreviation event_t := (@Event T).

Lemma valdt_loop_world_step (ext : external_t) (conf : conf_t)
  (models : list Component) (vw : option unit) (epoch nt nv : nat)
  (vb : list (nat * list (list (@Obj Geo)))) (l : Locals) (w : World) :
  match valdt_loop ext conf models vw epoch nt nv vb l w with
  | (r, w', tr) => world_step w w'
  end.
Proof.
  apply (valdt_loop_Q ext conf models vw (fun _ => True)
           (fun w w' _ => world_step w w')).
  - exact world_step_refl.
  - intros w0 w1 w2 _ _; apply world_step_trans.
  - exact world_step_eval.
  - intros; apply world_step_refl.
  - exact I.
Qed.

Lemma for_train_batches_world_step (ext : external_t) (conf : conf_t)
  (models : list Component) (opt : Optimizer) (tw vw : option unit)
  (epoch nt nv : nat) (tbs vb : list (nat * list (list (@Obj Geo))))
  (l : Locals) (w : World) :
  match for_train_batches ext conf models opt tw vw epoch nt nv tbs vb l w
  with
  | (r, w', tr) => world_step w w'
  end.
Proof.
  apply (for_train_batches_Q ext conf models opt tw vw (fun _ => True)
           (fun w w' _ => world_step w w')).
  - exact world_step_refl.
  - intros w0 w1 w2 _ _; apply world_step_trans.
  - exact world_step_eval.
  - intros; apply world_step_refl.
  - intros; apply world_step_refl.
  - intros; apply world_step_sched.
  - exact I.
Qed.

(** A validation pass puts the point encoder in evaluation mode. *)
Lemma valdt_loop_eval_mode (ext : external_t) (conf : conf_t)
  (models : list Component) (vw : option unit) (epoch nt nv : nat)
  (vb : list (nat * list (list (@Obj Geo)))) (l : Locals) (w : World) :
  match valdt_loop ext conf models vw epoch nt nv vb l w with
  | (r, w', tr) =>
      valdt_visited tr <> [] -> training (pointencoder_net w') = false
  end.
Proof.
  destruct vb as [|[ind batch] rest].
  - cbn [valdt_loop]. destruct (_ && _); cbn; congruence.
  - destruct (f64_leb (valdt_fraction_done l) (train_fraction_done l)
              && (valdt_batch_ind l + 1 <? Z.of_nat nv)%Z) eqn:Hg.
    2:{ cbn [valdt_loop]. rewrite Hg. cbn; congruence. }
    destruct nv as [|nv'].
    { cbn [valdt_loop]. rewrite Hg. unfold bind at 1. cbn; congruence. }
    destruct (valdt_loop_cons ext conf models vw epoch nt (S nv') ind batch
                rest l w Hg ltac:(discriminate))
      as (l' & _ & _ & _ & ->).
    cbv zeta. destruct vw as [wr|]; [|cbn; congruence].
    rewrite call_forward_eq.
    assert (Hoff : training
                     (pointencoder_net
                        (set_eval CPointEncoder (eval_all models w))) = false)
      by reflexivity.
    destruct (forward _ _ _ _ _ _ _ _ _ _ _ _ _ _ _) as [out|e];
      [|intros _; exact Hoff].
    pose proof (valdt_loop_world_step ext conf models (Some wr) epoch nt
                  (S nv') rest l'
                  (set_eval CPointEncoder (eval_all models w))) as Hstep.
    destruct (valdt_loop ext conf models (Some wr) epoch nt (S nv') rest l'
                (set_eval CPointEncoder (eval_all models w)))
      as [[r w2] t2].
    intros _. destruct Hstep as (_ & _ & _ & _ & Hmode & _).
    exact (Hmode CPointEncoder Hoff).
Qed.

Lemma for_train_batches_eval_mode (ext : external_t) (conf : conf_t)
  (models : list Component) (opt : Optimizer) (tw vw : option unit)
  (epoch nt nv : nat) :
  forall tbs vb l w,
    match for_train_batches ext conf models opt tw vw epoch nt nv tbs vb l w
    with
    | (r, w', tr) =>
        valdt_visited tr <> [] -> training (pointencoder_net w') = false
    end.
Proof.
  induction tbs as [|[i batch] rest IH]; intros vb l w.
  - cbn; congruence.
  - cbn [for_train_batches]. unfold bind at 1. rewrite train_one_batch_eq.
    destruct nt as [|nt']; [cbn; congruence|].
    destruct tw as [wr|]; [|cbn; congruence]. cbv zeta.
    destruct (forward _ _ _ _ _ _ _ _ _ _ _ _ _ _ _) as [out|e];
      [|cbn; congruence].
    set (l1 := {| last_checkpoint_step := _ |}).
    set (w1 := set_sched_steps (S (sched_steps w)) w).
    set (t1 := step_events opt epoch i (total_loss out) _).
    assert (Hv1 : valdt_visited t1 = []) by (unfold t1, step_events;
      destruct (checkpoint_due conf l (train_step_of epoch (S nt') i));
      reflexivity).
    unfold bind at 1.
    pose proof (valdt_loop_eval_mode ext conf models vw epoch (S nt') nv vb
                  l1 w1) as Hv.
    destruct (valdt_loop ext conf models vw epoch (S nt') nv vb l1 w1)
      as [[r2 w2] t2].
    destruct r2 as [[l2 vb2]|e2].
    2:{ rewrite valdt_visited_app, Hv1. exact Hv. }
    cbn [fst snd]. specialize (IH vb2 l2 w2).
    pose proof (for_train_batches_world_step ext conf models opt (Some wr)
                  vw epoch (S nt') nv rest vb2 l2 w2) as Hstep.
    destruct (for_train_batches ext conf models opt (Some wr) vw epoch
                (S nt') nv rest vb2 l2 w2) as [[r3 w3] t3].
    rewrite !valdt_visited_app, Hv1. cbn [app]. intros Hne.
    destruct (valdt_visited t3) as [|j js] eqn:Hv3.
    + rewrite app_nil_r in Hne.
      destruct Hstep as (_ & _ & _ & _ & Hmode & _).
      exact (Hmode CPointEncoder (Hv Hne)).
    + apply IH. discriminate.
Qed.

(** X17: the validation passes switch the point encoder to evaluation mode
    and nothing switches it back: an epoch in which a validation batch was
    visited ends with the point encoder in evaluation mode, and so does in
    particular every epoch that runs to its end with at least one training
    and one validation batch; from then on every training forward pass runs
    the point encoder in evaluation mode. *)
Theorem point_encoder_ends_in_evaluation_mode (ext : external_t)
  (conf : conf_t) (models : list Component) (opt : Optimizer)
  (tw vw : option unit) (epoch : nat) (l : Locals) (w : World) :
  match train_epoch ext conf models opt tw vw epoch l w with
  | (r, w', tr) =>
      (valdt_visited tr <> [] -> training (pointencoder_net w') = false)
      /\ (is_ok r = true ->
          1 <= num_batch (train_dataloader ext) ->
          1 <= num_batch (valdt_dataloader ext) ->
          training (pointencoder_net w') = false)
      /\ (training (pointencoder_net w) = false ->
          training (pointencoder_net w') = false)
  end.
Proof.
  pose proof (train_epoch_spec ext conf models opt tw vw epoch l w) as Hspec.
  unfold train_epoch in *.
  match goal with
  | |- context [for_train_batches ?a ?b ?c ?d ?t ?v ?ep ?n1 ?n2 ?tbs ?vb
                  ?l0 ?w0] =>
      pose proof (for_train_batches_eval_mode a b c d t v ep n1 n2 tbs vb l0
                    w0) as Hmode;
      pose proof (for_train_batches_world_step a b c d t v ep n1 n2 tbs vb l0
                    w0) as Hstep;
      destruct (for_train_batches a b c d t v ep n1 n2 tbs vb l0 w0)
        as [[r w'] tr]
  end.
  split; [exact Hmode|]. split.
  - intros Hok Hnt Hnv. apply Hmode.
    destruct Hspec as (p & _ & Hvis & _ & _ & _ & Hfirst).
    rewrite Hvis. specialize (Hfirst Hok).
    destruct p; [lia | discriminate].
  - intros Hoff. destruct Hstep as (_ & _ & _ & _ & Hkeep & _).
    exact (Hkeep CPointEncoder Hoff).
Qed.

End PointEncoderMode.

Lemma point_encoder_mode_witness :
  training
    (pointencoder_net
       (snd (fst (train_epoch ex_external ex_conf [CEncoder; CDecoder]
                    {| opt_params := CEncoder |} (Some tt) (Some tt) 0
                    initial_locals (ex_world "y")))))
  = false.
Proof.
  pose proof (point_encoder_ends_in_evaluation_mode ex_external ex_conf
                [CEncoder; CDecoder] {| opt_params := CEncoder |} (Some tt)
                (Some tt) 0 initial_locals (ex_world "y")) as Hw.
  destruct (train_epoch ex_external ex_conf [CEncoder; CDecoder]
              {| opt_params := CEncoder |} (Some tt) (Some tt) 0
              initial_locals (ex_world "y")) as [[r w'] tr] eqn:Hrun.
  assert (Hr : is_ok r = true).
  { vm_compute in Hrun. injection Hrun as <- _ _. reflexivity. }
  destruct Hw as (_ & Hfull & _). cbn [fst snd].
  apply (Hfull Hr); vm_compute; lia.
Defined.

Lemma epochs_keep_witness :
  match for_epochs ex_external ex_conf [CEncoder; CDecoder]
          {| opt_params := CEncoder |} (Some tt) (Some tt) [0; 1] None
          initial_locals (ex_world "y") with
  | (r, w', tr) =>
      log_dir_exists w' = log_dir_exists (ex_world "y")
      /\ model_dir_exists w' = model_dir_exists (ex_world "y")
      /\ stdin w' = stdin (ex_world "y")
      /\ (forall c, requires_grad (net_of c w')
                    = requires_grad (net_of c (ex_world "y")))
      /\ (forall c, training (net_of c (ex_world "y")) = false ->
                    training (net_of c w') = false)
      /\ sched_steps (ex_world "y") <= sched_steps w'
  end.
Proof.
  exact (epochs_keep_directories_and_gradient_flags ex_external ex_conf
           [CEncoder; CDecoder] {| opt_params := CEncoder |} (Some tt)
           (Some tt) [0; 1] None initial_locals (ex_world "y")).
Defined.
